(** * AgentKit: the CLI front-end and the bundled [text_processor] plugin

    A shallow embedding of [src/agentkit/cli.py] and of
    [src/plugins/text_processor/{__init__,core,utils,formatters}.py],
    together with a model of the loader, the environment reconciliation
    engine and the dependency extractor, whose modules ([loader.py],
    [env_utils.py], [depcheck.py]) are imported by the package but are not
    among its sources here. The private helper [_remove_markdown_syntax] of
    [utils.py] is called by no tool and is left out. *)

From Stdlib Require Import ZArith NArith QArith String Ascii Bool Lia.
From Stdlib Require Import DecimalString Sorted Permutation.
From stdpp Require Import base option list gmap.

Set Warnings "-register-all".
Local Open Scope N_scope.

(** ** Python strings

    A Python [str] is a sequence of Unicode code points; [len] counts code
    points and comparisons are lexicographic on them. *)

Abbreviation codepoint := N (only parsing).
Abbreviation str := (list N) (only parsing).

(** Literals are written as UTF-8 text and decoded to code points. *)
Fixpoint utf8_go (need : nat) (acc : N) (bs : list N) : str :=
  match bs with
  | [] => []
  | b :: bs' =>
      match need with
      | O =>
          if b <? 128 then b :: utf8_go 0 0 bs'
          else if b <? 224 then utf8_go 1 (N.land b 31) bs'
          else if b <? 240 then utf8_go 2 (N.land b 15) bs'
          else utf8_go 3 (N.land b 7) bs'
      | S n =>
          let acc' := acc * 64 + N.land b 63 in
          match n with
          | O => acc' :: utf8_go 0 0 bs'
          | S _ => utf8_go n acc' bs'
          end
      end
  end.

Definition py (s : string) : str :=
  utf8_go 0 0 (List.map N_of_ascii (list_ascii_of_string s)).

(** Code points the source names but a literal here cannot hold. *)
Definition dquote : codepoint := 34.
Definition squote : codepoint := 39.
Definition newline : codepoint := 10.
Definition space : codepoint := 32.

(** [str.isspace] on one code point, the class [\s] of [re] on [str]
    patterns and the set stripped by [str.strip()]: CPython's table of
    white-space code points. *)
Definition isspace (c : codepoint) : bool :=
  ((9 <=? c) && (c <=? 13)) || ((28 <=? c) && (c <=? 32))
  || (c =? 133) || (c =? 160) || (c =? 5760)
  || ((8192 <=? c) && (c <=? 8202))
  || (c =? 8232) || (c =? 8233) || (c =? 8239) || (c =? 8287) || (c =? 12288).

Definition str_eqb (a b : str) : bool := bool_decide (a = b).

Definition default_or {A} (o : option A) (d : A) : A :=
  match o with Some a => a | None => d end.

(** [c in chars] for a one-character [c]. *)
Definition char_in (chars : str) (c : codepoint) : bool :=
  existsb (N.eqb c) chars.

(** [s.startswith(p)]. *)
Fixpoint startswith (p s : str) : bool :=
  match p, s with
  | [], _ => true
  | _ :: _, [] => false
  | a :: p', b :: s' => (a =? b) && startswith p' s'
  end.

Fixpoint dropwhile (p : codepoint -> bool) (s : str) : str :=
  match s with
  | [] => []
  | c :: s' => if p c then dropwhile p s' else s
  end.

(** [s.strip()] and [s.strip(chars)]. *)
Definition strip_by (p : codepoint -> bool) (s : str) : str :=
  rev (dropwhile p (rev (dropwhile p s))).

Definition strip (s : str) : str := strip_by isspace s.
Definition strip_chars (chars s : str) : str := strip_by (char_in chars) s.

(** [s.replace(old, new)]: every non-overlapping occurrence, leftmost
    first. [skip] counts the characters of a matched occurrence that are
    still to be passed over. An empty [old] matches before every character
    and at the end. *)
Fixpoint replace_go (old new : str) (skip : nat) (s : str) : str :=
  match s with
  | [] => []
  | c :: s' =>
      match skip with
      | S k => replace_go old new k s'
      | O =>
          if startswith old s
          then new ++ replace_go old new (length old - 1) s'
          else c :: replace_go old new 0 s'
      end
  end.

Fixpoint intersperse_str (new s : str) : str :=
  match s with
  | [] => new
  | c :: s' => new ++ c :: intersperse_str new s'
  end.

Definition replace (old new s : str) : str :=
  match old with
  | [] => intersperse_str new s
  | _ :: _ => replace_go old new 0 s
  end.

(** [sep.join(parts)]. *)
Fixpoint join (sep : str) (parts : list str) : str :=
  match parts with
  | [] => []
  | [x] => x
  | x :: rest => x ++ sep ++ join sep rest
  end.

Definition cons_head (c : codepoint) (parts : list str) : list str :=
  match parts with
  | w :: ws => (c :: w) :: ws
  | [] => [[c]]
  end.

(** [s.split(sep)] for a non-empty [sep] (the source only passes the
    literals ['\n'] and ['\n\n']); empty pieces are kept. *)
Fixpoint split_go (sep : str) (skip : nat) (s : str) : list str :=
  match s with
  | [] => [[]]
  | c :: s' =>
      match skip with
      | S k => split_go sep k s'
      | O =>
          if startswith sep s
          then [] :: split_go sep (length sep - 1) s'
          else cons_head c (split_go sep 0 s')
      end
  end.

Definition split (sep s : str) : list str := split_go sep 0 s.

(** Truth value of a sequence. *)
Definition nonempty {A} (s : list A) : bool :=
  match s with [] => false | _ :: _ => true end.

(** ** The regular expressions of the plugin

    Every pattern of the tools has the shape [C+] for a character class
    [C]; a match is a maximal run of characters of [C]. *)

(** [re.sub(r'C+', repl, s)]. *)
Fixpoint re_sub_plus (cls : codepoint -> bool) (repl : str) (in_run : bool)
    (s : str) : str :=
  match s with
  | [] => []
  | c :: s' =>
      if cls c
      then (if in_run then re_sub_plus cls repl true s'
            else repl ++ re_sub_plus cls repl true s')
      else c :: re_sub_plus cls repl false s'
  end.

(** [re.split(r'C+', s)]: the pieces between the runs, empty pieces at
    both ends included. *)
Fixpoint re_split_plus (cls : codepoint -> bool) (in_run : bool) (s : str)
    : list str :=
  match s with
  | [] => [[]]
  | c :: s' =>
      if cls c
      then (if in_run then re_split_plus cls true s'
            else [] :: re_split_plus cls true s')
      else cons_head c (re_split_plus cls false s')
  end.

(** [re.findall(r'C+', s)]: the runs themselves. *)
Fixpoint re_findall_plus (cls : codepoint -> bool) (s : str) : list str :=
  match s with
  | [] => []
  | c :: s' =>
      if cls c
      then
        match s' with
        | c' :: _ =>
            if cls c' then cons_head c (re_findall_plus cls s')
            else [c] :: re_findall_plus cls s'
        | [] => [[c]]
        end
      else re_findall_plus cls s'
  end.

(** ** [utils.py] *)

(** The second statement under [# Normalize quotes] passes, byte for byte,
    three apostrophes as the first argument of [replace]. They open a
    triple-quoted literal that runs to the next three apostrophes, so the
    statement is a single [replace] whose [old] is the fifteen characters
    between them (comma, space, quote, apostrophe, quote, then
    [).replace(]) and whose [new] is the apostrophe. *)
Definition quote_old : str :=
  py ", " ++ [dquote; squote; dquote] ++ py ").replace(".

Definition clean_text (text : str) : str :=
  (* cleaned = re.sub(r'\s+', ' ', text) *)
  let cleaned := re_sub_plus isspace [space] false text in
  (* cleaned = cleaned.strip() *)
  let cleaned := strip cleaned in
  (* first line under Normalize quotes: the quote replaced by itself, twice *)
  let cleaned := replace [dquote] [dquote] (replace [dquote] [dquote] cleaned) in
  (* second line: cleaned.replace(quote_old, apostrophe) *)
  let cleaned := replace quote_old [squote] cleaned in
  cleaned.

Definition clean_text_bad_input : str :=
  py ", " ++ [dquote] ++ quote_old ++ [dquote] ++ py ").replace(".


(** ** Values *)

(** The Python values that cross the interfaces modelled here. A [dict]
    keeps its insertion order, so it is an association list. *)
Inductive pyvalue : Type :=
  | VNone
  | VBool (b : bool)
  | VInt (n : Z)
  | VFloat (q : Q)
  | VStr (s : str)
  | VList (items : list pyvalue)
  | VDict (entries : list (str * pyvalue)).

(** ** Plugin bundles on disk *)

(** Modelled from the spec: a candidate bundle of the plugin root, as the
    loader ([loader.py], not among the sources) sees it: the name of the
    sub-directory and what importing its entry module gives, either a
    failure or a module with, possibly, a metadata block and an exports
    block (the names of the callables under [tools]). *)
Record module_contents : Type := {
  mod_info : option pyvalue;
  mod_exports : option (list (list N))
}.

Inductive import_result : Type :=
  | ImportFailed (reason : list N)
  | Imported (m : module_contents).

Record candidate : Type := {
  cand_dir : list N;
  cand_import : import_result
}.

(** ** Exceptions and the world *)

(** Exception classes. [KeyboardInterrupt], [SystemExit] and
    [GeneratorExit] derive from [BaseException] only; the others derive
    from [Exception]. *)
Inductive exn_class : Type :=
  | KeyboardInterrupt
  | SystemExit
  | GeneratorExit
  | OtherBaseException (name : str)
  | ValueError
  | ZeroDivisionError
  | IndexError
  | AttributeError
  | OSError
  | OtherException (name : str).

Record exn : Type := mk_exn { exn_cls : exn_class; exn_msg : list N }.

(** [isinstance(e, Exception)]. *)
Definition is_Exception (e : exn) : bool :=
  match exn_cls e with
  | KeyboardInterrupt | SystemExit | GeneratorExit | OtherBaseException _ =>
      false
  | _ => true
  end.

Definition is_KeyboardInterrupt (e : exn) : bool :=
  match exn_cls e with KeyboardInterrupt => true | _ => false end.

Inductive outcome (A : Type) : Type :=
  | Return (a : A)
  | Raise (e : exn).
Arguments Return {A} a.
Arguments Raise {A} e.

(** What a call does to the process environment. *)
Inductive env_event : Type :=
  | EnvRead (name : str)
  | EnvWrite (name value : str)
  | EnvDelete (name : str).

(** One piece of a printed line: literal text, or a value interpolated by
    an f-string (rendered by [str()]). *)
Inductive fragment : Type :=
  | Lit (s : str)
  | Fmt (v : pyvalue).

Record World : Type := mkWorld {
  environ : gmap (list N) (list N);     (* os.environ *)
  env_trace : list env_event;           (* accesses to it, oldest first *)
  stdout : list (list fragment);        (* printed lines, oldest first *)
  files : gmap (list N) (list N);       (* files written, by path *)
  plugin_root : list candidate          (* sub-directories of the plugin root *)
}.

Definition Py (A : Type) : Type := World -> outcome A * World.

Definition ret {A} (a : A) : Py A := fun w => (Return a, w).
Definition raise {A} (e : exn) : Py A := fun w => (Raise e, w).
Definition bind {A B} (m : Py A) (k : A -> Py B) : Py B :=
  fun w =>
    match m w with
    | (Return a, w') => k a w'
    | (Raise e, w') => (Raise e, w')
    end.

Declare Scope py_scope.
Delimit Scope py_scope with py.
Notation "x <- m ;; k" := (bind m (fun x => k))
  (at level 100, m at next level, right associativity) : py_scope.
Notation "m ;; k" := (bind m (fun _ => k))
  (at level 100, right associativity) : py_scope.
Open Scope py_scope.

(** [try: body / except: handler]; a handler that answers [None] does not
    match and the exception propagates. *)
Definition try_except {A} (body : Py A) (handler : exn -> option (Py A))
    : Py A :=
  fun w =>
    match body w with
    | (Return a, w') => (Return a, w')
    | (Raise e, w') =>
        match handler e with
        | Some h => h w'
        | None => (Raise e, w')
        end
    end.

(** [os.getenv(name, default)]. *)
Definition os_getenv (name default : str) : Py str :=
  fun w =>
    (Return (default_or (environ w !! name) default),
     mkWorld (environ w) (env_trace w ++ [EnvRead name]) (stdout w) (files w) (plugin_root w)).

(** [os.environ[name] = value]; no function of the sources calls it. *)
Definition os_putenv (name value : str) : Py unit :=
  fun w =>
    (Return tt,
     mkWorld (<[name := value]> (environ w))
             (env_trace w ++ [EnvWrite name value]) (stdout w) (files w) (plugin_root w)).

(** [print(line)]. *)
Definition printed (line : list fragment) (w : World) : World :=
  mkWorld (environ w) (env_trace w) (stdout w ++ [line]) (files w)
    (plugin_root w).

Definition print (line : list fragment) : Py unit :=
  fun w => (Return tt, printed line w).

Definition print_str (s : str) : Py unit := print [Lit s].

(** ** Built-ins that depend on the interpreter

    The Unicode database beyond ASCII and the interpreter's limit on the
    digits of an integer literal are not part of the repository; the tools
    are modelled over any choice of them. *)
Class Runtime : Type := {
  (* the decimal value of a non-ASCII code point of category Nd *)
  decimal_value : N -> option Z;
  (* str.isalnum on a non-ASCII code point *)
  isalnum : N -> bool;
  (* str.lower *)
  lower : list N -> list N;
  (* sys.get_int_max_str_digits(); 0 switches the limit off *)
  int_max_str_digits : N;
  (* the interpreter refuses a limit below 640 *)
  int_max_str_digits_ok : int_max_str_digits = 0 \/ 640 <= int_max_str_digits
}.

Definition ascii_lower_char (c : codepoint) : codepoint :=
  if (65 <=? c) && (c <=? 90) then c + 32 else c.

(** CPython's default limit, 4300 digits, is one the interpreter allows. *)
Definition default_limit_allowed : 640 <= 4300 :=
  fun H : (640 ?= 4300) = Gt =>
    match H in (_ = c) return (match c with Gt => False | _ => True end) with
    | eq_refl => I
    end.

(** An interpreter that knows ASCII only, with CPython's default limit. *)
Definition ascii_runtime : Runtime := {|
  decimal_value := fun _ => None;
  isalnum := fun _ => false;
  lower := List.map ascii_lower_char;
  int_max_str_digits := 4300;
  int_max_str_digits_ok := or_intror default_limit_allowed
|}.

Definition len {A} (l : list A) : Z := Z.of_nat (length l).

(** [str(n)] for an [int]. *)
Definition str_of_int (n : Z) : str :=
  py (NilZero.string_of_int (Z.to_int n)).

(** [l[:k]]. *)
Definition slice_to {A} (k : Z) (l : list A) : list A :=
  if (0 <=? k)%Z then take (Z.to_nat k) l
  else take (Z.to_nat (len l + k)) l.

(** [a / b] on two [int]s. The quotient is a [float]; floats are modelled
    by the rationals they approximate. *)
Definition py_truediv (a b : Z) : Py Q :=
  if (b =? 0)%Z then raise (mk_exn ZeroDivisionError (py "division by zero"))
  else ret (Qmake (a * Z.sgn b) (Z.to_pos (Z.abs b))).

(** Round a rational to the nearest integer, ties to even. *)
Definition round_half_even (q : Q) : Z :=
  let n := Qnum q in
  let d := Zpos (Qden q) in
  let f := (n / d)%Z in
  let r := (2 * (n - f * d))%Z in
  if (r <? d)%Z then f
  else if (d <? r)%Z then (f + 1)%Z
  else if Z.even f then f else (f + 1)%Z.

(** [round(x, ndigits)] for a non-negative [ndigits]: an [int] stays what
    it is, a [float] is rounded to that many decimals. The rounding is that
    of the exact rational, ties to even; CPython rounds the binary double,
    which lies beside a decimal tie ([round(0.05, 1)] is [0.1] there), so
    the two can differ on ties. Nothing below is stated about a rounded
    [float]. *)
Definition py_round (x : pyvalue) (ndigits : N) : pyvalue :=
  match x with
  | VFloat q =>
      let scale := Zpos (N.succ_pos (N.pred (10 ^ ndigits))) in
      VFloat (Qmake (round_half_even (q * inject_Z scale)) (Z.to_pos scale))
  | _ => x
  end.

Section Tools.
Context {RT : Runtime}.

(** [int(s)] for a [str]: white space around, an optional sign, decimal
    digits with single underscores between them. Among ASCII characters
    only tab to carriage return and the space count as white space. *)
Definition int_space (c : codepoint) : bool :=
  if c <? 127 then ((9 <=? c) && (c <=? 13)) || (c =? 32) else isspace c.

Definition digit_of (c : codepoint) : option Z :=
  if c <? 127
  then (if (48 <=? c) && (c <=? 57) then Some (Z.of_N (c - 48)) else None)
  else if isspace c then None else decimal_value c.

Fixpoint digits_go (acc : Z) (count : N) (s : str) : option (Z * N) :=
  match s with
  | [] => Some (acc, count)
  | c :: s' =>
      if c =? 95
      then
        match s' with
        | d :: s'' =>
            match digit_of d with
            | Some v => digits_go (10 * acc + v)%Z (count + 1) s''
            | None => None
            end
        | [] => None
        end
      else
        match digit_of c with
        | Some v => digits_go (10 * acc + v)%Z (count + 1) s'
        | None => None
        end
  end.

Definition parse_digits (s : str) : option Z :=
  match s with
  | [] => None
  | c :: s' =>
      match digit_of c with
      | None => None
      | Some v =>
          match digits_go v 1 s' with
          | None => None
          | Some (n, count) =>
              if negb (int_max_str_digits =? 0) && (int_max_str_digits <? count)
              then None else Some n
          end
      end
  end.

Definition parse_int (s : str) : option Z :=
  match strip_by int_space s with
  | [] => None
  | c :: s' =>
      if c =? 45 then Z.opp <$> parse_digits s'
      else if c =? 43 then parse_digits s'
      else parse_digits (c :: s')
  end.

(** [int(s)]. The [ValueError] carries the fixed part of CPython's message,
    without the literal it quotes after it. *)
Definition py_int (s : str) : Py Z :=
  match parse_int s with
  | Some n => ret n
  | None =>
      raise (mk_exn ValueError
               (py "invalid literal for int() with base 10"))
  end.

(** The class [\w]. *)
Definition is_word (c : codepoint) : bool :=
  if c <? 128
  then ((48 <=? c) && (c <=? 57)) || ((65 <=? c) && (c <=? 90))
       || ((97 <=? c) && (c <=? 122)) || (c =? 95)
  else isalnum c.

(** [re.findall(r'\b\w+\b', s)]: a run of word characters starts and ends
    at a word boundary exactly when it is maximal. *)
Definition findall_words (s : str) : list str := re_findall_plus is_word s.

(** [s.split()]: the maximal runs of characters that are not white space. *)
Definition split_ws (s : str) : list str :=
  re_findall_plus (fun c => negb (isspace c)) s.

(** ** [utils.py]: words and keywords *)

Definition count_words (text : str) : Z :=
  (* words = re.findall(r'\b\w+\b', text.lower()) *)
  let words := findall_words (lower text) in
  len words.

(** A [dict] with [str] keys as an association list in insertion order. *)
Fixpoint dict_get {V} (k : str) (d : list (str * V)) : option V :=
  match d with
  | [] => None
  | (k', v) :: d' => if str_eqb k k' then Some v else dict_get k d'
  end.

Fixpoint dict_set {V} (k : str) (v : V) (d : list (str * V))
    : list (str * V) :=
  match d with
  | [] => [(k, v)]
  | (k', v') :: d' =>
      if str_eqb k k' then (k, v) :: d' else (k', v') :: dict_set k v d'
  end.

(** [sorted(items, key=lambda x: x[1], reverse=True)]: stable, largest
    count first. *)
Fixpoint insert_by_freq (x : str * Z) (l : list (str * Z)) : list (str * Z) :=
  match l with
  | [] => [x]
  | y :: l' =>
      if (x.2 <? y.2)%Z then y :: insert_by_freq x l' else x :: y :: l'
  end.

Definition sorted_by_freq (items : list (str * Z)) : list (str * Z) :=
  foldr insert_by_freq [] items.

Definition stop_words : list str :=
  List.map py
    ["the"; "a"; "an"; "and"; "or"; "but"; "in"; "on"; "at"; "to"; "for";
     "of"; "with"; "by"; "is"; "are"; "was"; "were"; "be"; "been"; "have";
     "has"; "had"; "do"; "does"; "did"; "will"; "would"; "could"; "should";
     "this"; "that"; "these"; "those"; "i"; "you"; "he"; "she"; "it"; "we";
     "they"; "me"; "him"; "her"; "us"; "them"; "my"; "your"; "his"; "its";
     "our"; "their"]%string.

Definition extract_keywords (text : str) (max_keywords : Z) : list str :=
  (* cleaned = await clean_text(text) *)
  let cleaned := clean_text text in
  (* words = re.findall(r'\b\w+\b', cleaned.lower()) *)
  let words := findall_words (lower cleaned) in
  (* for word in words: if len(word) > 2 and word not in stop_words: ... *)
  let word_freq :=
    fold_left
      (fun (word_freq : list (str * Z)) word =>
         if (2 <? len word)%Z && negb (existsb (str_eqb word) stop_words)
         then dict_set word (default_or (dict_get word word_freq) 0 + 1)%Z
                word_freq
         else word_freq)
      words [] in
  let sorted_words := sorted_by_freq word_freq in
  List.map fst (slice_to max_keywords sorted_words).

(** ** [core.py] *)

Definition MAX_LENGTH_VAR : str := py "TEXT_PROCESSOR_MAX_LENGTH".

Definition too_long (max_length : Z) : exn :=
  mk_exn ValueError
    (py "Text too long. Maximum length is " ++ str_of_int max_length
     ++ py " characters.").

Definition sum_Z (l : list Z) : Z := fold_left Z.add l 0%Z.

Definition analyze_text (text : str) : Py pyvalue :=
  (* max_length = int(os.getenv("TEXT_PROCESSOR_MAX_LENGTH", "10000")) *)
  env_value <- os_getenv MAX_LENGTH_VAR (py "10000") ;;
  max_length <- py_int env_value ;;
  if (max_length <? len text)%Z then raise (too_long max_length)
  else
    let cleaned := clean_text text in
    let char_count := len text in
    let char_count_no_spaces := len (replace [space] [] text) in
    let word_count := count_words text in
    let line_count := len (split [newline] text) in
    let paragraph_count :=
      len (List.filter (fun p => nonempty (strip p))
             (split [newline; newline] text)) in
    let sentence_count := len (re_findall_plus (char_in (py ".!?")) text) in
    let words := split_ws text in
    (* sum(len(word.strip('.,!?;:')) for word in words) / len(words)
       if words else 0 *)
    avg_word_length <-
      match words with
      | _ :: _ =>
          q <- py_truediv
                 (sum_Z (List.map (fun word => len (strip_chars (py ".,!?;:") word))
                           words))
                 (len words) ;;
          ret (VFloat q)
      | [] => ret (VInt 0)
      end ;;
    reading_time <- py_truediv word_count 200 ;;
    ret (VDict
           [(py "character_count", VInt char_count);
            (py "character_count_no_spaces", VInt char_count_no_spaces);
            (py "word_count", VInt word_count);
            (py "line_count", VInt line_count);
            (py "paragraph_count", VInt paragraph_count);
            (py "sentence_count", VInt sentence_count);
            (py "average_word_length", py_round avg_word_length 2);
            (py "reading_time_minutes", py_round (VFloat reading_time) 1)]).

(** [a < b] on [str]. *)
Fixpoint str_ltb (a b : str) : bool :=
  match a, b with
  | _, [] => false
  | [], _ :: _ => true
  | x :: a', y :: b' => (x <? y) || ((x =? y) && str_ltb a' b')
  end.

(** [a < b] on the tuples [(score, sentence)]. *)
Definition scored_ltb (a b : Q * str) : bool :=
  match (a.1 ?= b.1)%Q with
  | Lt => true
  | Eq => str_ltb a.2 b.2
  | Gt => false
  end.

(** [scored_sentences.sort(reverse=True)]. *)
Fixpoint insert_scored (x : Q * str) (l : list (Q * str)) : list (Q * str) :=
  match l with
  | [] => [x]
  | y :: l' => if scored_ltb x y then y :: insert_scored x l' else x :: y :: l'
  end.

Definition sort_scored_reverse (l : list (Q * str)) : list (Q * str) :=
  foldr insert_scored [] l.

(** The sentences of a text: [re.split(r'[.!?]+', text)], each piece
    stripped, the empty ones dropped. *)
Definition sentences_of (text : str) : list str :=
  let sentences := re_split_plus (char_in (py ".!?")) false text in
  List.map strip (List.filter (fun s => nonempty (strip s)) sentences).

(** The loop under [# Maintain original order]. *)
Fixpoint pick_in_order (top_sentences : list str) (max_sentences : Z)
    (summary_sentences : list str) (sentences : list str) : list str :=
  match sentences with
  | [] => summary_sentences
  | sentence :: rest =>
      if existsb (str_eqb sentence) top_sentences
      then
        let summary_sentences := summary_sentences ++ [sentence] in
        if (max_sentences <=? len summary_sentences)%Z then summary_sentences
        else pick_in_order top_sentences max_sentences summary_sentences rest
      else pick_in_order top_sentences max_sentences summary_sentences rest
  end.

Definition summarize_text (text : str) (max_sentences : Z) : Py str :=
  env_value <- os_getenv MAX_LENGTH_VAR (py "10000") ;;
  max_length <- py_int env_value ;;
  if (max_length <? len text)%Z then raise (too_long max_length)
  else
    let sentences := sentences_of text in
    if (len sentences <=? max_sentences)%Z then ret text
    else
      let scored_sentences :=
        imap
          (fun i sentence =>
             let word_count := len (split_ws sentence) in
             (* 1.0 if i < len(sentences) * 0.3 else 0.5; the float
                product is below, at or above the integer i exactly when
                three tenths of the length is, for every length a list
                can have *)
             let position_score :=
               match (inject_Z (Z.of_nat i) ?= inject_Z (len sentences) * (3 # 10))%Q with
               | Lt => 1%Q
               | _ => (1 # 2)%Q
               end in
             (inject_Z word_count * position_score, sentence)%Q)
          sentences in
      let scored_sentences := sort_scored_reverse scored_sentences in
      let top_sentences :=
        List.map snd (slice_to max_sentences scored_sentences) in
      let summary_sentences :=
        pick_in_order top_sentences max_sentences [] sentences in
      ret (join (py ". ") summary_sentences ++ py ".").

(** ** [formatters.py] *)

Definition format_as_markdown (text title : str) : str :=
  let lines := split [newline] text in
  let formatted_lines := [py "# " ++ title; []] in
  let '(formatted_lines, current_paragraph) :=
    fold_left
      (fun '(formatted_lines, current_paragraph) line =>
         let line := strip line in
         match line with
         | [] =>
             match current_paragraph with
             | _ :: _ =>
                 (formatted_lines ++ [join [space] current_paragraph] ++ [[]],
                  [])
             | [] => (formatted_lines, current_paragraph)
             end
         | _ :: _ => (formatted_lines, current_paragraph ++ [line])
         end)
      lines (formatted_lines, []) in
  let formatted_lines :=
    match current_paragraph with
    | _ :: _ => formatted_lines ++ [join [space] current_paragraph]
    | [] => formatted_lines
    end in
  join [newline] formatted_lines.

Definition quoted (s : string) : str := [dquote] ++ py s ++ [dquote].

Definition html_head (title : str) : list str :=
  [ py "<!DOCTYPE html>";
    py "<html lang=" ++ quoted "en" ++ py ">";
    py "<head>";
    py "    <meta charset=" ++ quoted "UTF-8" ++ py ">";
    py "    <meta name=" ++ quoted "viewport" ++ py " content="
      ++ quoted "width=device-width, initial-scale=1.0" ++ py ">";
    py "    <title>" ++ title ++ py "</title>";
    py "    <style>";
    py "        body {";
    py "            font-family: Arial, sans-serif;";
    py "            max-width: 800px;";
    py "            margin: 0 auto;";
    py "            padding: 20px;";
    py "            line-height: 1.6;";
    py "        }";
    py "        h1 {";
    py "            color: #333;";
    py "            border-bottom: 2px solid #eee;";
    py "            padding-bottom: 10px;";
    py "        }";
    py "        p {";
    py "            margin-bottom: 15px;";
    py "        }";
    py "    </style>";
    py "</head>";
    py "<body>";
    py "    <h1>" ++ title ++ py "</h1>" ].

Definition format_as_html (text title : str) : str :=
  let text :=
    replace (py ">") (py "&gt;")
      (replace (py "<") (py "&lt;") (replace (py "&") (py "&amp;") text)) in
  let paragraphs :=
    List.map strip
      (List.filter (fun p => nonempty (strip p))
         (split [newline; newline] text)) in
  let html_paragraphs :=
    List.map
      (fun paragraph =>
         let paragraph :=
           re_sub_plus (N.eqb newline) [space] false paragraph in
         py "    <p>" ++ paragraph ++ py "</p>")
      paragraphs in
  join [newline]
    (html_head title
     ++ [join [newline] html_paragraphs; py "</body>"; py "</html>"]).

(** The bullet of the source file is the three code points U+00E2, U+20AC,
    U+00A2. *)
Definition bullet : str := [226; 8364; 162; 32].

Definition format_as_list (text list_type : str) : str :=
  let lines :=
    List.map strip
      (List.filter (fun line => nonempty (strip line))
         (split [newline] text)) in
  let formatted_lines :=
    if str_eqb list_type (py "numbered")
    then imap
           (fun i line =>
              str_of_int (Z.of_nat i + 1) ++ py ". " ++ line)
           lines
    else List.map (fun line => bullet ++ line) lines in
  join [newline] formatted_lines.

(** ** [__init__.py] *)

Definition _module_info : pyvalue :=
  VDict
    [(py "name", VStr (py "Text Processor"));
     (py "description",
      VStr (py "Advanced text processing utilities with multiple modules"));
     (py "author", VStr (py "AgentKit Team"));
     (py "version", VStr (py "1.0.0"));
     (py "platform", VStr (py "any"));
     (py "python_requires", VStr (py ">=3.10"));
     (py "dependencies", VList [VStr (py "pydantic>=2.0.0")]);
     (py "environment_variables",
      VDict
        [(py "TEXT_PROCESSOR_MAX_LENGTH",
          VDict
            [(py "description", VStr (py "Maximum text length to process"));
             (py "default", VStr (py "10000"));
             (py "required", VBool false)])])].

(** The callables of the plugin, by name. *)
Inductive tool : Type :=
  | t_analyze_text
  | t_summarize_text
  | t_clean_text
  | t_count_words
  | t_extract_keywords
  | t_format_as_markdown
  | t_format_as_html
  | t_format_as_list.

Definition tool_name (t : tool) : str :=
  match t with
  | t_analyze_text => py "analyze_text"
  | t_summarize_text => py "summarize_text"
  | t_clean_text => py "clean_text"
  | t_count_words => py "count_words"
  | t_extract_keywords => py "extract_keywords"
  | t_format_as_markdown => py "format_as_markdown"
  | t_format_as_html => py "format_as_html"
  | t_format_as_list => py "format_as_list"
  end.

Definition _module_exports : list (str * list tool) :=
  [(py "tools",
    [t_analyze_text; t_summarize_text; t_clean_text; t_count_words;
     t_extract_keywords; t_format_as_markdown; t_format_as_html;
     t_format_as_list])].

(** A call of a tool with its arguments; [None] stands for an argument
    left to its default. *)
Inductive tool_call : Type :=
  | call_analyze_text (text : list N)
  | call_summarize_text (text : list N) (max_sentences : option Z)
  | call_clean_text (text : list N)
  | call_count_words (text : list N)
  | call_extract_keywords (text : list N) (max_keywords : option Z)
  | call_format_as_markdown (text : list N) (title : option (list N))
  | call_format_as_html (text : list N) (title : option (list N))
  | call_format_as_list (text : list N) (list_type : option (list N)).

Definition called_tool (c : tool_call) : tool :=
  match c with
  | call_analyze_text _ => t_analyze_text
  | call_summarize_text _ _ => t_summarize_text
  | call_clean_text _ => t_clean_text
  | call_count_words _ => t_count_words
  | call_extract_keywords _ _ => t_extract_keywords
  | call_format_as_markdown _ _ => t_format_as_markdown
  | call_format_as_html _ _ => t_format_as_html
  | call_format_as_list _ _ => t_format_as_list
  end.

(** Awaiting the coroutine of a tool call. *)
Definition run_tool (c : tool_call) : Py pyvalue :=
  match c with
  | call_analyze_text text => analyze_text text
  | call_summarize_text text max_sentences =>
      r <- summarize_text text (default_or max_sentences 3%Z) ;; ret (VStr r)
  | call_clean_text text => ret (VStr (clean_text text))
  | call_count_words text => ret (VInt (count_words text))
  | call_extract_keywords text max_keywords =>
      ret (VList (List.map VStr
                    (extract_keywords text (default_or max_keywords 10%Z))))
  | call_format_as_markdown text title =>
      ret (VStr (format_as_markdown text (default_or title (py "Document"))))
  | call_format_as_html text title =>
      ret (VStr (format_as_html text (default_or title (py "Document"))))
  | call_format_as_list text list_type =>
      ret (VStr (format_as_list text (default_or list_type (py "bullet"))))
  end.

End Tools.


(** ** The modules the CLI imports

    [cli.py] imports [load_plugins] from [.loader] and [create_env_manager]
    from [.env_utils] and calls the methods below on what they return. The
    CLI is modelled over any implementation of this interface. *)
Class Modules : Type := {
  Plugins : Type;
  PluginEnvManager : Type;
  (* load_plugins(silent=...) *)
  load_plugins : bool -> Py Plugins;
  (* plugins.list_plugins(): identifier -> metadata *)
  list_plugins : Plugins -> Py (list (list N * pyvalue));
  (* plugins.list_tools(): qualified names *)
  list_tools : Plugins -> Py (list (list N));
  create_env_manager : Plugins -> Py PluginEnvManager;
  generate_env_template : PluginEnvManager -> list N -> Py unit;
  (* env_manager.get_all_env_vars(): name -> merged spec *)
  get_all_env_vars : PluginEnvManager -> Py (list (list N * pyvalue));
  validate_env_vars : PluginEnvManager -> Py (list (list N));
  check_conflicts : PluginEnvManager -> Py (list (list N));
  get_plugin_env_summary : PluginEnvManager -> Py (list N)
}.

(** ** [cli.py] *)

(** Truth value of an object. *)
Definition truthy (v : pyvalue) : bool :=
  match v with
  | VNone => false
  | VBool b => b
  | VInt n => negb (n =? 0)%Z
  | VFloat q => negb (Qeq_bool q 0)
  | VStr s => nonempty s
  | VList l => nonempty l
  | VDict d => nonempty d
  end.

(** [v.get(key, default)]; only a [dict] has the method. The class of the
    exception is CPython's; its message leaves out the name of the type. *)
Definition value_get (v : pyvalue) (key : str) (default : pyvalue)
    : Py pyvalue :=
  match v with
  | VDict d => ret (default_or (dict_get key d) default)
  | _ =>
      raise (mk_exn AttributeError (py "object has no attribute 'get'"))
  end.

(** [v.items()], with the same exception as [value_get]. *)
Definition value_items (v : pyvalue) : Py (list (str * pyvalue)) :=
  match v with
  | VDict d => ret d
  | _ =>
      raise (mk_exn AttributeError (py "object has no attribute 'items'"))
  end.

Fixpoint for_each {A} (l : list A) (body : A -> Py unit) : Py unit :=
  match l with
  | [] => ret tt
  | x :: rest => body x ;; for_each rest body
  end.

(** [[k for k, v in items if keep(v)]] where [keep] may raise. *)
Fixpoint filter_keys (keep : pyvalue -> Py bool) (items : list (str * pyvalue))
    : Py (list str) :=
  match items with
  | [] => ret []
  | (k, v) :: rest =>
      b <- keep v ;;
      ks <- filter_keys keep rest ;;
      ret (if b then k :: ks else ks)
  end.

Definition is_required (v : pyvalue) : Py bool :=
  r <- value_get v (py "required") (VBool false) ;; ret (truthy r).

(** [sum(1 for v in env_vars.values() if v.get('required', False))]. *)
Definition count_required (env_vars : list (str * pyvalue)) : Py Z :=
  ks <- filter_keys is_required env_vars ;; ret (len ks).

(** [t.split('.', 1)[1]]. *)
Fixpoint after_first_dot (t : str) : Py str :=
  match t with
  | [] => raise (mk_exn IndexError (py "list index out of range"))
  | c :: t' => if c =? 46 then ret t' else after_first_dot t'
  end.

Fixpoint map_py {A B} (f : A -> Py B) (l : list A) : Py (list B) :=
  match l with
  | [] => ret []
  | x :: rest => y <- f x ;; ys <- map_py f rest ;; ret (y :: ys)
  end.

Inductive command : Type := Generate | Validate | Summary | ListPlugins | Check.

(** The namespace [parser.parse_args()] returns. *)
Record Namespace : Type := {
  ns_command : option command;
  ns_output : option (list N)
}.

Definition bullet_line (item : str) : list fragment :=
  [Lit (py "   • "); Lit item].

Section CLI.
Context {M : Modules}.

Definition cmd_generate (args : Namespace) : Py (option Z) :=
  plugins <- load_plugins true ;;
  env_manager <- create_env_manager plugins ;;
  (* output_file = args.output or ".env.template" *)
  let output_file :=
    match ns_output args with
    | Some (c :: o) => c :: o
    | _ => py ".env.template"
    end in
  generate_env_template env_manager output_file ;;
  print [Lit (py "✅ Generated "); Lit output_file] ;;
  loaded <- list_plugins plugins ;;
  print [Lit (py "📦 Found "); Fmt (VInt (len loaded)); Lit (py " capabilities")] ;;
  env_vars <- get_all_env_vars env_manager ;;
  required_count <- count_required env_vars ;;
  print [Lit (py "🔧 "); Fmt (VInt (len env_vars));
         Lit (py " environment variables ("); Fmt (VInt required_count);
         Lit (py " required)")] ;;
  ret None.

Definition cmd_validate (args : Namespace) : Py (option Z) :=
  plugins <- load_plugins true ;;
  env_manager <- create_env_manager plugins ;;
  missing <- validate_env_vars env_manager ;;
  conflicts <- check_conflicts env_manager ;;
  (* if not missing and not conflicts: *)
  if negb (nonempty missing) && negb (nonempty conflicts)
  then
    print_str (py "✅ Environment configuration is valid!") ;;
    ret (Some 0%Z)
  else
    (if nonempty missing
     then
       print_str (py "❌ Missing required environment variables:") ;;
       for_each missing (fun var => print (bullet_line var)) ;;
       print []
     else ret tt) ;;
    (if nonempty conflicts
     then
       print_str (py "⚠️  Potential naming conflicts detected:") ;;
       for_each conflicts (fun conflict => print (bullet_line conflict)) ;;
       print []
     else ret tt) ;;
    ret (Some 1%Z).

Definition cmd_summary (args : Namespace) : Py (option Z) :=
  plugins <- load_plugins true ;;
  env_manager <- create_env_manager plugins ;;
  summary <- get_plugin_env_summary env_manager ;;
  print_str summary ;;
  ret None.

Definition list_one_plugin (plugins : Plugins) (plugin_name : str)
    (metadata : pyvalue) : Py unit :=
  name <- value_get metadata (py "name") (VStr plugin_name) ;;
  version <- value_get metadata (py "version") (VStr (py "unknown")) ;;
  description <-
    value_get metadata (py "description") (VStr (py "No description")) ;;
  print [Lit (py "🔌 "); Fmt name; Lit (py " v"); Fmt version] ;;
  print [Lit (py "   "); Fmt description] ;;
  (* Show tools *)
  tools <- list_tools plugins ;;
  let plugin_tools :=
    List.filter (startswith (plugin_name ++ py ".")) tools in
  (if nonempty plugin_tools
   then
     short <- map_py after_first_dot plugin_tools ;;
     print [Lit (py "   Tools: "); Lit (join (py ", ") short)]
   else ret tt) ;;
  (* Show environment variables *)
  env_vars <- value_get metadata (py "environment_variables") (VDict []) ;;
  (if truthy env_vars
   then
     items <- value_items env_vars ;;
     required <- filter_keys is_required items ;;
     items' <- value_items env_vars ;;
     optional <-
       filter_keys (fun v => b <- is_required v ;; ret (negb b)) items' ;;
     (if nonempty required
      then print [Lit (py "   Required env vars: ");
                  Lit (join (py ", ") required)]
      else ret tt) ;;
     (if nonempty optional
      then print [Lit (py "   Optional env vars: ");
                  Lit (join (py ", ") optional)]
      else ret tt)
   else ret tt) ;;
  print [].

Definition cmd_list (args : Namespace) : Py (option Z) :=
  plugins <- load_plugins true ;;
  loaded <- list_plugins plugins ;;
  print [Lit (py "📦 Loaded Capabilities ("); Fmt (VInt (len loaded));
         Lit (py "):")] ;;
  print [] ;;
  items <- list_plugins plugins ;;
  for_each items (fun '(plugin_name, metadata) =>
                    list_one_plugin plugins plugin_name metadata) ;;
  ret None.

Definition cmd_check (args : Namespace) : Py (option Z) :=
  plugins <- load_plugins true ;;
  env_manager <- create_env_manager plugins ;;
  (* the text ends in a line feed *)
  print_str (py "🔍 Running environment checks..." ++ [newline]) ;;
  (* Basic info *)
  loaded <- list_plugins plugins ;;
  print [Lit (py "📦 Loaded "); Fmt (VInt (len loaded));
         Lit (py " capabilities")] ;;
  tools <- list_tools plugins ;;
  print [Lit (py "🔧 Found "); Fmt (VInt (len tools)); Lit (py " tools")] ;;
  env_vars <- get_all_env_vars env_manager ;;
  required_count <- count_required env_vars ;;
  print [Lit (py "🌍 "); Fmt (VInt (len env_vars));
         Lit (py " environment variables ("); Fmt (VInt required_count);
         Lit (py " required)")] ;;
  print [] ;;
  (* Validation *)
  missing <- validate_env_vars env_manager ;;
  conflicts <- check_conflicts env_manager ;;
  (if nonempty missing
   then
     print_str (py "❌ Missing required environment variables:") ;;
     for_each missing (fun var => print (bullet_line var)) ;;
     print []
   else
     print_str (py "✅ All required environment variables are set") ;;
     print []) ;;
  (if nonempty conflicts
   then
     print_str (py "⚠️  Potential naming conflicts:") ;;
     for_each conflicts (fun conflict => print (bullet_line conflict)) ;;
     print []
   else
     print_str (py "✅ No naming conflicts detected") ;;
     print []) ;;
  (* Recommendations *)
  if nonempty missing || nonempty conflicts
  then
    print_str (py "💡 Recommendations:") ;;
    (if nonempty missing
     then
       print_str
         (py "   • Run 'python -m agentkit generate' to create .env.template") ;;
       print_str
         (py "   • Copy .env.template to .env and configure required variables")
     else ret tt) ;;
    (if nonempty conflicts
     then print_str
            (py "   • Consider renaming conflicting variables for clarity")
     else ret tt) ;;
    ret (Some 1%Z)
  else ret (Some 0%Z).

(** [set_defaults(func=...)] of each sub-parser. *)
Definition func (c : command) : Namespace -> Py (option Z) :=
  match c with
  | Generate => cmd_generate
  | Validate => cmd_validate
  | Summary => cmd_summary
  | ListPlugins => cmd_list
  | Check => cmd_check
  end.

(** [r or 0] for what a command returns ([None] or an [int]). *)
Definition or_zero (r : option Z) : Z :=
  match r with
  | Some n => if (n =? 0)%Z then 0%Z else n
  | None => 0%Z
  end.

(** [parser.print_help()]; the text is [argparse]'s and is cut to its first
    line here. *)
Definition print_help : Py unit :=
  print_str (py "usage: [-h] {generate,validate,summary,list,check} ...").

(** [main], from the parsed arguments on. What it returns is the exit
    code of the process: [sys.exit(main())]. *)
Definition main (args : Namespace) : Py Z :=
  match ns_command args with
  | None => print_help ;; ret 1%Z
  | Some c =>
      try_except
        (r <- func c args ;; ret (or_zero r))
        (fun e =>
           if is_KeyboardInterrupt e
           then Some (print_str ([newline] ++ py "⚠️  Interrupted by user") ;;
                      ret 1%Z)
           else if is_Exception e
           then Some (print [Lit (py "❌ Error: "); Lit (exn_msg e)] ;;
                      ret 1%Z)
           else None)
  end.

End CLI.

(** ** The data model of the registry *)

(** Modelled from the spec: the declaration of one environment variable
    (section 3, EnvVarSpec), which [env_utils.py], not among the sources,
    works on. *)
Record EnvVarSpec : Type := {
  ev_name : list N;
  ev_description : list N;
  ev_default : option (list N);
  ev_required : bool
}.

(** Modelled from the spec: the self-description of a plugin (section 3,
    PluginMetadata), built by [loader.py], not among the sources. The
    mapping of environment variables keeps its declaration order. *)
Record PluginMetadata : Type := {
  md_name : list N;
  md_identifier : list N;
  md_version : list N;
  md_description : list N;
  md_author : list N;
  md_platform : list N;
  md_runtime_requires : list N;
  md_dependencies : list (list N);
  md_environment_variables : list EnvVarSpec
}.

(** Modelled from the spec: one exported tool (section 3, Tool); the
    signature is documentation only and is left out. *)
Record Tool : Type := {
  qualified_name : list N;
  plugin_identifier : list N
}.

(** Modelled from the spec: the registry (section 3, PluginRegistry), the
    result of [loader.py], not among the sources. Both mappings keep their
    insertion order, which is the iteration order of the registry. *)
Record PluginRegistry : Type := {
  plugins : list (list N * PluginMetadata);
  tools : list (list N * Tool)
}.

(** ** The plugin loader *)

Definition get_str (d : list (str * pyvalue)) (key : str) : option str :=
  match dict_get key d with
  | Some (VStr s) => Some s
  | _ => None
  end.

Definition get_bool (d : list (str * pyvalue)) (key : str) : option bool :=
  match dict_get key d with
  | Some (VBool b) => Some b
  | _ => None
  end.

Definition as_str (v : pyvalue) : option str :=
  match v with VStr s => Some s | _ => None end.

(** All of [f x] for [x] in [l], or nothing if one of them fails. *)
Fixpoint traverse {A B} (f : A -> option B) (l : list A) : option (list B) :=
  match l with
  | [] => Some []
  | x :: rest =>
      match f x, traverse f rest with
      | Some y, Some ys => Some (y :: ys)
      | _, _ => None
      end
  end.

(** Modelled from the spec: validation of one entry of
    [environment_variables] by [loader.py], not among the sources (section
    4.1, step 4): the entry must specify at least a description and a
    required flag; a default is optional. *)
Definition parse_env_spec (entry : str * pyvalue) : option EnvVarSpec :=
  match entry.2 with
  | VDict d =>
      match get_str d (py "description"), get_bool d (py "required") with
      | Some description, Some required =>
          match dict_get (py "default") d with
          | None | Some VNone =>
              Some {| ev_name := entry.1; ev_description := description;
                      ev_default := None; ev_required := required |}
          | Some (VStr s) =>
              Some {| ev_name := entry.1; ev_description := description;
                      ev_default := Some s; ev_required := required |}
          | Some _ => None
          end
      | _, _ => None
      end
  | _ => None
  end.

(** Modelled from the spec: validation of a metadata block against the
    Metadata Schema by [loader.py], not among the sources (section 4.1,
    steps 3 and 4): name, version, description, author, platform, the
    runtime-version constraint, the sequence of dependencies and the mapping
    of environment variables. The identifier comes from the location of the
    bundle. *)
Definition parse_metadata (identifier : str) (info : pyvalue)
    : option PluginMetadata :=
  match info with
  | VDict d =>
      match get_str d (py "name"), get_str d (py "version"),
            get_str d (py "description"), get_str d (py "author"),
            get_str d (py "platform"), get_str d (py "python_requires"),
            dict_get (py "dependencies") d,
            dict_get (py "environment_variables") d with
      | Some name, Some version, Some description, Some author,
        Some platform, Some runtime, Some (VList deps), Some (VDict vars) =>
          match traverse as_str deps, traverse parse_env_spec vars with
          | Some deps, Some vars =>
              Some {| md_name := name; md_identifier := identifier;
                      md_version := version; md_description := description;
                      md_author := author; md_platform := platform;
                      md_runtime_requires := runtime;
                      md_dependencies := deps;
                      md_environment_variables := vars |}
          | _, _ => None
          end
      | _, _, _, _, _, _, _, _ => None
      end
  | _ => None
  end.

(** Modelled from the spec: import and validation of one candidate by
    [loader.py], not among the sources (section 4.1, steps 2 to 4, all but
    the uniqueness of the identifier): the reason of the failure, or the
    metadata and the names of the exported tools. *)
Definition check_candidate (c : candidate)
    : list N + PluginMetadata * list (list N) :=
  match cand_import c with
  | ImportFailed reason => inl reason
  | Imported m =>
      match mod_info m, mod_exports m with
      | None, _ => inl (py "missing metadata block")
      | _, None => inl (py "missing exports block")
      | Some info, Some exports =>
          match parse_metadata (cand_dir c) info with
          | None => inl (py "invalid metadata")
          | Some md => inr (md, exports)
          end
      end
  end.

Definition has_key {V} (k : str) (d : list (str * V)) : bool :=
  match dict_get k d with Some _ => true | None => false end.

Record load_state : Type := {
  registry : PluginRegistry;
  skipped : list (list N * list N)
}.

(** Modelled from the spec: registration of one tool (section 4.1, step
    5); a qualified name already taken is skipped and recorded. *)
Definition register_tool (identifier : str) (st : load_state)
    (tool_name : str) : load_state :=
  let qualified := identifier ++ py "." ++ tool_name in
  if has_key qualified (tools (registry st))
  then {| registry := registry st;
          skipped :=
            skipped st ++ [(identifier, py "duplicate tool " ++ qualified)] |}
  else {| registry :=
            {| plugins := plugins (registry st);
               tools :=
                 tools (registry st)
                 ++ [(qualified,
                      {| qualified_name := qualified;
                         plugin_identifier := identifier |})] |};
          skipped := skipped st |}.

(** Modelled from the spec: one turn of the loop of the loader (section
    4.1); a failure is recorded and the loop goes on. *)
Definition load_candidate (st : load_state) (c : candidate) : load_state :=
  match check_candidate c with
  | inl reason =>
      {| registry := registry st;
         skipped := skipped st ++ [(cand_dir c, reason)] |}
  | inr (md, exports) =>
      if has_key (md_identifier md) (plugins (registry st))
      then {| registry := registry st;
              skipped :=
                skipped st ++ [(cand_dir c, py "duplicate identifier")] |}
      else
        fold_left (register_tool (md_identifier md)) exports
          {| registry :=
               {| plugins :=
                    plugins (registry st) ++ [(md_identifier md, md)];
                  tools := tools (registry st) |};
             skipped := skipped st |}
  end.

Definition empty_state : load_state :=
  {| registry := {| plugins := []; tools := [] |}; skipped := [] |}.

(** Modelled from the spec: the loader (section 4.1), over the candidates
    in the order of enumeration. *)
Definition load (root : list candidate) : load_state :=
  fold_left load_candidate root empty_state.

(** ** The dependency extractor *)

(** [a == b] and [a < b] give the usual three-way comparison. *)
Fixpoint insert_sorted (x : str) (l : list str) : list str :=
  match l with
  | [] => [x]
  | y :: l' =>
      if str_ltb x y then x :: y :: l'
      else if str_ltb y x then y :: insert_sorted x l'
      else l
  end.

(** [sorted(set(l))]. *)
Definition sorted_set (l : list str) : list str := foldr insert_sorted [] l.

Section Extractor.
(** The allow-list that tells third-party libraries from the standard
    ones, and the root names imported by the source files of a plugin. *)
Variable third_party : list N -> bool.
Variable scan_imports : list N -> list (list N).

(** Modelled from the spec: [extract] of [depcheck.py], not among the
    sources (section 4.2): the declared dependencies when there are some,
    else the distinct third-party libraries the sources import. *)
Definition extract (md : PluginMetadata) : list str :=
  match md_dependencies md with
  | _ :: _ => md_dependencies md
  | [] => sorted_set (List.filter third_party (scan_imports (md_identifier md)))
  end.

(** Modelled from the spec: [aggregate] of [depcheck.py], not among the
    sources (section 4.2): the requirements of each plugin and the
    combined set. *)
Definition aggregate (reg : PluginRegistry)
    : list (str * list str) * list str :=
  let per_plugin :=
    List.map (fun '(identifier, md) => (identifier, extract md))
      (plugins reg) in
  (per_plugin, sorted_set (concat (List.map snd per_plugin))).

(** Modelled from the spec: [generate_requirements] of [depcheck.py], not
    among the sources (section 4.2): one specifier per line, without
    duplicates, in lexicographic order. *)
Definition generate_requirements (reg : PluginRegistry) : str :=
  join [newline] (aggregate reg).2.

End Extractor.

(** ** The environment reconciliation engine *)

Definition has_value (d : option str) : bool :=
  match d with Some (_ :: _) => true | _ => false end.

(** Modelled from the spec: the merge of a further declaration into the
    merged spec (section 4.3): [required] escalates, description and
    default stay with the first declaration that gave a non-empty one. *)
Definition merge_spec (old new : EnvVarSpec) : EnvVarSpec :=
  {| ev_name := ev_name old;
     ev_description :=
       if nonempty (ev_description old) then ev_description old
       else ev_description new;
     ev_default :=
       if has_value (ev_default old) then ev_default old
       else if has_value (ev_default new) then ev_default new
       else ev_default old;
     ev_required := ev_required old || ev_required new |}.

Definition declare (merged : list (str * EnvVarSpec)) (spec : EnvVarSpec)
    : list (str * EnvVarSpec) :=
  match dict_get (ev_name spec) merged with
  | None => dict_set (ev_name spec) spec merged
  | Some old => dict_set (ev_name spec) (merge_spec old spec) merged
  end.

(** Every declaration of the registry with its plugin, in iteration order. *)
Definition declarations (reg : PluginRegistry) : list (str * EnvVarSpec) :=
  flat_map
    (fun '(identifier, md) =>
       List.map (fun spec => (identifier, spec)) (md_environment_variables md))
    (plugins reg).

(** Modelled from the spec: [get_all_env_vars] of [env_utils.py], not among
    the sources (section 4.3). *)
Definition merged_env_vars (reg : PluginRegistry) : list (str * EnvVarSpec) :=
  fold_left declare (List.map snd (declarations reg)) [].

Definition declarations_of (name : str) (reg : PluginRegistry)
    : list (str * EnvVarSpec) :=
  List.filter (fun d => str_eqb (ev_name d.2) name) (declarations reg).

(** Two declarations differ materially: different required flags, or
    different non-empty defaults. *)
Definition materially_different (a b : EnvVarSpec) : bool :=
  xorb (ev_required a) (ev_required b)
  || (has_value (ev_default a) && has_value (ev_default b)
      && negb (bool_decide (ev_default a = ev_default b))).

Fixpoint some_pair_differs (l : list EnvVarSpec) : bool :=
  match l with
  | [] => false
  | a :: rest =>
      existsb (materially_different a) rest || some_pair_differs rest
  end.

(** Modelled from the spec: [check_conflicts] of [env_utils.py], not among
    the sources (section 4.3): one description per conflicting name, with
    the plugins that declare it. *)
Definition conflicts_of (reg : PluginRegistry) : list str :=
  omap
    (fun '(name, _) =>
       let decls := declarations_of name reg in
       if some_pair_differs (List.map snd decls)
       then Some (name ++ py ": declared differently by "
                  ++ join (py ", ") (List.map fst decls))
       else None)
    (merged_env_vars reg).

(** A look-up in [os.environ]. *)
Definition env_lookup (name : str) : Py (option str) :=
  fun w =>
    (Return (environ w !! name),
     mkWorld (environ w) (env_trace w ++ [EnvRead name]) (stdout w) (files w)
       (plugin_root w)).

(** Modelled from the spec: [validate_env_vars] of [env_utils.py], not
    among the sources (section 4.3): the required names that are absent
    from the environment or empty there, in the order of first declaration. *)
Fixpoint missing_required (specs : list (str * EnvVarSpec)) : Py (list str) :=
  match specs with
  | [] => ret []
  | (name, spec) :: rest =>
      if ev_required spec
      then
        value <- env_lookup name ;;
        missing <- missing_required rest ;;
        ret (if nonempty (default_or value []) then missing
             else name :: missing)
      else missing_required rest
  end.

Definition marker (spec : EnvVarSpec) : str :=
  if ev_required spec then py "required" else py "optional".

(** Modelled from the spec: the text of the template of
    [generate_env_template] (section 4.3): per variable a comment with the
    description and the marker, then the assignment of the default. *)
Definition template_text (reg : PluginRegistry) : str :=
  join [newline]
    (flat_map
       (fun '(name, spec) =>
          [py "# " ++ ev_description spec ++ py " (" ++ marker spec ++ py ")";
           name ++ py "=" ++ default_or (ev_default spec) []])
       (merged_env_vars reg)).

Definition write_file (path content : str) : Py unit :=
  fun w =>
    (Return tt,
     mkWorld (environ w) (env_trace w) (stdout w)
       (<[path := content]> (files w)) (plugin_root w)).

(** Modelled from the spec: the text of [get_plugin_env_summary] (section
    4.3): per plugin its variables with their markers, then the total. *)
Definition summary_text (reg : PluginRegistry) : str :=
  join [newline]
    (flat_map
       (fun '(identifier, md) =>
          (identifier ++ py ":")
          :: List.map
               (fun spec =>
                  py "  " ++ ev_name spec ++ py " (" ++ marker spec ++ py ")")
               (md_environment_variables md))
       (plugins reg)
     ++ [py "Total: " ++ str_of_int (len (merged_env_vars reg))
         ++ py " variables"]).

Definition spec_value (spec : EnvVarSpec) : pyvalue :=
  VDict
    [(py "description", VStr (ev_description spec));
     (py "default",
      match ev_default spec with Some s => VStr s | None => VNone end);
     (py "required", VBool (ev_required spec))].

Definition metadata_value (md : PluginMetadata) : pyvalue :=
  VDict
    [(py "name", VStr (md_name md));
     (py "description", VStr (md_description md));
     (py "author", VStr (md_author md));
     (py "version", VStr (md_version md));
     (py "platform", VStr (md_platform md));
     (py "python_requires", VStr (md_runtime_requires md));
     (py "dependencies", VList (List.map VStr (md_dependencies md)));
     (py "environment_variables",
      VDict (List.map (fun spec => (ev_name spec, spec_value spec))
               (md_environment_variables md)))].

Definition print_skipped (st : load_state) : Py unit :=
  for_each (skipped st)
    (fun '(dir, reason) =>
       print [Lit (py "skipped "); Lit dir; Lit (py ": "); Lit reason]).

(** Modelled from the spec: the loader and the engine behind the interface
    the CLI calls (sections 4.1 and 4.3); [loader.py] and [env_utils.py]
    are not among the sources. *)
Definition spec_modules : Modules := {|
  Plugins := load_state;
  PluginEnvManager := PluginRegistry;
  load_plugins silent := fun w =>
    let st := load (plugin_root w) in
    if silent then (Return st, w)
    else bind (print_skipped st) (fun _ => ret st) w;
  list_plugins st :=
    ret (List.map (fun '(identifier, md) => (identifier, metadata_value md))
           (plugins (registry st)));
  list_tools st := ret (List.map fst (tools (registry st)));
  create_env_manager st := ret (registry st);
  generate_env_template reg path := write_file path (template_text reg);
  get_all_env_vars reg :=
    ret (List.map (fun '(name, spec) => (name, spec_value spec))
           (merged_env_vars reg));
  validate_env_vars reg := missing_required (merged_env_vars reg);
  check_conflicts reg := ret (conflicts_of reg);
  get_plugin_env_summary reg := ret (summary_text reg)
|}.

(** ** Sample worlds *)

Definition text_processor_bundle : candidate := {|
  cand_dir := py "text_processor";
  cand_import :=
    Imported
      {| mod_info := Some _module_info;
         mod_exports :=
           List.map tool_name <$> dict_get (py "tools") _module_exports |}
|}.

(** A bundle whose metadata has no name. *)
Definition nameless_bundle : candidate := {|
  cand_dir := py "broken";
  cand_import :=
    Imported
      {| mod_info := Some (VDict [(py "version", VStr (py "0.1"))]);
         mod_exports := Some [py "noop"] |}
|}.

(** A bundle that needs an API key. *)
Definition keyed_bundle : candidate := {|
  cand_dir := py "weather";
  cand_import :=
    Imported
      {| mod_info :=
           Some
             (VDict
                [(py "name", VStr (py "Weather"));
                 (py "description", VStr (py "Forecasts"));
                 (py "author", VStr (py "AgentKit Team"));
                 (py "version", VStr (py "0.2.0"));
                 (py "platform", VStr (py "any"));
                 (py "python_requires", VStr (py ">=3.10"));
                 (py "dependencies", VList [VStr (py "requests")]);
                 (py "environment_variables",
                  VDict
                    [(py "API_KEY",
                      VDict
                        [(py "description", VStr (py "Key of the service"));
                         (py "required", VBool true)])])]);
         mod_exports := Some [py "forecast"] |}
|}.

Definition world_of (env : list (str * str)) (root : list candidate) : World :=
  mkWorld (list_to_map env) [] [] ∅ root.

Definition bundled_world : World := world_of [] [text_processor_bundle].

Definition keyed_world : World :=
  world_of [(MAX_LENGTH_VAR, py "12")]
    [text_processor_bundle; nameless_bundle; keyed_bundle].

(** ** Outcomes and exit codes *)

Definition returns {A} (o : outcome A) : Prop := exists a, o = Return a.
Definition raises_ValueError {A} (o : outcome A) : Prop :=
  exists e, o = Raise e /\ exn_cls e = ValueError.

Definition max_length_is {RT : Runtime} (w : World) (m : Z) : Prop :=
  match environ w !! MAX_LENGTH_VAR with
  | None => m = 10000%Z
  | Some s => parse_int s = Some m
  end.



Definition validate_args : Namespace :=
  {| ns_command := Some Validate; ns_output := None |}.

Definition check_args : Namespace :=
  {| ns_command := Some Check; ns_output := None |}.

(** Modelled from the spec: the plugin bundle contract (sections 3, 4.1
    and 6), which [loader.py], not among the sources, enforces: a metadata
    block with name, version, description, author, platform, the
    runtime-version constraint, a sequence of dependencies and a mapping of
    environment variables whose entries each have a description and a
    required flag; and an exports block that lists the tools. *)
Definition entry_specified (entry : str * pyvalue) : bool :=
  match entry.2 with
  | VDict d => has_key (py "description") d && has_key (py "required") d
  | _ => false
  end.

Definition satisfies_contract (info : pyvalue)
    (exports : list (str * list tool)) : bool :=
  match info with
  | VDict d =>
      forallb (fun key => bool_decide (is_Some (get_str d (py key))))
        ["name"; "version"; "description"; "author"; "platform";
         "python_requires"]%string
      && match dict_get (py "dependencies") d with
         | Some (VList deps) =>
             forallb (fun v => bool_decide (is_Some (as_str v))) deps
         | _ => false
         end
      && match dict_get (py "environment_variables") d with
         | Some (VDict vars) => forallb entry_specified vars
         | _ => false
         end
      && has_key (py "tools") exports
  | _ => false
  end.

(** ** Frames on the process environment *)

(** A computation leaves [os.environ] as it was, and every access it makes
    to it satisfies [P]. *)
Definition env_only {A} (P : env_event -> Prop) (m : Py A) : Prop :=
  forall w,
    environ (m w).2 = environ w
    /\ exists events,
         env_trace (m w).2 = env_trace w ++ events /\ Forall P events.

(** A computation that leaves the whole world as it was. *)
Definition world_kept {A} (m : Py A) : Prop := forall w, (m w).2 = w.

Definition modules_env_only (P : env_event -> Prop) (M : Modules) : Prop :=
  (forall silent, env_only P (load_plugins silent))
  /\ (forall p, env_only P (list_plugins p))
  /\ (forall p, env_only P (list_tools p))
  /\ (forall p, env_only P (create_env_manager p))
  /\ (forall e path, env_only P (generate_env_template e path))
  /\ (forall e, env_only P (get_all_env_vars e))
  /\ (forall e, env_only P (validate_env_vars e))
  /\ (forall e, env_only P (check_conflicts e))
  /\ (forall e, env_only P (get_plugin_env_summary e)).

Definition is_read (e : env_event) : Prop :=
  match e with EnvRead _ => True | _ => False end.

(** The accesses of one tool call to the environment. *)
Definition env_reads_of (t : tool) : list env_event :=
  match t with
  | t_analyze_text | t_summarize_text => [EnvRead MAX_LENGTH_VAR]
  | _ => []
  end.


(** The merged spec after one more declaration. *)
Definition merge_into (o : option EnvVarSpec) (spec : EnvVarSpec)
    : option EnvVarSpec :=
  Some (match o with Some old => merge_spec old spec | None => spec end).

(** Every declaration of [name] in the registry, in iteration order. *)
Definition declared (name : list N) (reg : PluginRegistry) : list EnvVarSpec :=
  List.map snd (declarations_of name reg).

(** The first non-empty description of a list of declarations, the empty
    string if there is none. *)
Definition first_description (decls : list EnvVarSpec) : list N :=
  default_or (List.find nonempty (List.map ev_description decls)) [].

(** The first non-empty default of a list of declarations that starts
    with [first]; what [first] gave if there is none. *)
Definition first_default (first : EnvVarSpec) (rest : list EnvVarSpec)
    : option (list N) :=
  default_or (List.find has_value (List.map ev_default (first :: rest)))
    (ev_default first).

(** Two plugins that declare [TIMEOUT], the second as required. *)
Definition plugin_with (identifier : string) (vars : list EnvVarSpec)
    (deps : list string) : list N * PluginMetadata :=
  (py identifier,
   {| md_name := py identifier; md_identifier := py identifier;
      md_version := py "1.0"; md_description := []; md_author := [];
      md_platform := py "any"; md_runtime_requires := py ">=3.10";
      md_dependencies := List.map py deps;
      md_environment_variables := vars |}).

Definition timeout_optional : EnvVarSpec :=
  {| ev_name := py "TIMEOUT"; ev_description := [];
     ev_default := Some (py "30"); ev_required := false |}.

Definition timeout_required : EnvVarSpec :=
  {| ev_name := py "TIMEOUT"; ev_description := py "Seconds to wait";
     ev_default := Some (py "60"); ev_required := true |}.

Definition two_plugins : PluginRegistry :=
  {| plugins := [plugin_with "a" [timeout_optional] ["foo"; "bar"]%string;
                 plugin_with "b" [timeout_required] ["bar"; "baz"]%string];
     tools := [] |}.

Definition two_plugins_swapped : PluginRegistry :=
  {| plugins := [plugin_with "b" [timeout_required] ["bar"; "baz"]%string;
                 plugin_with "a" [timeout_optional] ["foo"; "bar"]%string];
     tools := [] |}.

(** [a < b] on [str], as a proposition. *)
Definition str_lt (a b : list N) : Prop := str_ltb a b = true.

(** ** What [# Normalize quotes] announces *)

(** [clean_text] with the replacements its comment announces: the
    typographic double quotes U+201C and U+201D become the ASCII double
    quote, the typographic single quotes U+2018 and U+2019 the apostrophe.
    The source file holds ASCII quotes in their place. *)
Definition clean_text_intended (text : list N) : list N :=
  let cleaned := re_sub_plus isspace [space] false text in
  let cleaned := strip cleaned in
  let cleaned := replace [8221] [dquote] (replace [8220] [dquote] cleaned) in
  let cleaned := replace [8217] [squote] (replace [8216] [squote] cleaned) in
  cleaned.

(** The result of [s.replace(a, b)] on one character, for one-character
    [a] and [b]. *)
Definition swap_char (a b c : N) : N := if c =? a then b else c.

Definition normalize_quote (c : N) : N :=
  swap_char 8217 squote
    (swap_char 8216 squote (swap_char 8221 dquote (swap_char 8220 dquote c))).

(** The first character, if any, is not white space. *)
Definition head_ok (s : list N) : bool :=
  match s with
  | [] => true
  | d :: _ => negb (isspace d)
  end.

(** Every white-space character is a space and no white space follows it. *)
Fixpoint collapsed (s : list N) : bool :=
  match s with
  | [] => true
  | c :: s' =>
      (if isspace c then (c =? space) && head_ok s' else true) && collapsed s'
  end.

(** ** Further notions *)

(** The last character, if any, is not white space. *)
Definition last_ok (s : list N) : bool := head_ok (rev s).

(** Every white-space character is a plain space. *)
Definition only_plain_spaces (s : list N) : Prop :=
  Forall (fun c => isspace c = true -> c = space) s.

Definition blank (s : list N) : Prop := Forall (fun c => isspace c = true) s.

(** The number of occurrences of a character. *)
Definition count_char (a : N) (s : list N) : Z :=
  len (List.filter (N.eqb a) s).

Section KeywordNotions.
Context {RT : Runtime}.

(** The words [extract_keywords] counts: those of the cleaned text in
    lower case. *)
Definition keyword_words (text : list N) : list (list N) :=
  findall_words (lower (clean_text text)).

(** The test of the loop of [extract_keywords]:
    [len(word) > 2 and word not in stop_words]. *)
Definition is_keyword (word : list N) : bool :=
  (2 <? len word)%Z && negb (existsb (str_eqb word) stop_words).

(** One turn of the loop of [extract_keywords]. *)
Definition tally (word_freq : list (list N * Z)) (word : list N)
    : list (list N * Z) :=
  if is_keyword word
  then dict_set word (default_or (dict_get word word_freq) 0 + 1)%Z word_freq
  else word_freq.

(** How often a word occurs in a list of words. *)
Definition occurrences (word : list N) (words : list (list N)) : Z :=
  len (List.filter (str_eqb word) words).

End KeywordNotions.

(** The order of [sorted(..., key=lambda x: x[1], reverse=True)]. *)
Definition freq_ge (a b : list N * Z) : Prop := (b.2 <= a.2)%Z.

(** The field [key] of the dictionary a tool returned. *)
Definition field_of (key : string) (o : outcome pyvalue) : option pyvalue :=
  match o with
  | Return (VDict fields) => dict_get (py key) fields
  | _ => None
  end.

Definition empty_limit_world : World :=
  world_of [(MAX_LENGTH_VAR, [])] [text_processor_bundle].

Section SummaryNotions.
Context {RT : Runtime}.

(** The scored sentences of [summarize_text], before sorting. *)
Definition scored_sentences (sentences : list (list N)) : list (Q * list N) :=
  imap
    (fun i sentence =>
       let word_count := len (split_ws sentence) in
       let position_score :=
         match (inject_Z (Z.of_nat i) ?= inject_Z (len sentences) * (3 # 10))%Q with
         | Lt => 1%Q
         | _ => (1 # 2)%Q
         end in
       (inject_Z word_count * position_score, sentence)%Q)
    sentences.

(** [top_sentences] of [summarize_text]. *)
Definition top_sentences_of (sentences : list (list N)) (max_sentences : Z)
    : list (list N) :=
  List.map snd
    (slice_to max_sentences (sort_scored_reverse (scored_sentences sentences))).

End SummaryNotions.

(** [sentence in top_sentences]. *)
Definition in_top (top_sentences : list (list N)) (sentence : list N) : bool :=
  existsb (str_eqb sentence) top_sentences.

(** The items of [format_as_list]: the non-blank lines, stripped. *)
Definition list_items (text : list N) : list (list N) :=
  List.map strip
    (List.filter (fun line => nonempty (strip line)) (split [newline] text)).

(** One turn of the loop of [format_as_markdown]. *)
Definition markdown_step (state : list (list N) * list (list N))
    (line : list N) : list (list N) * list (list N) :=
  let '(formatted_lines, current_paragraph) := state in
  let line := strip line in
  match line with
  | [] =>
      match current_paragraph with
      | _ :: _ =>
          (formatted_lines ++ [join [space] current_paragraph] ++ [[]], [])
      | [] => (formatted_lines, current_paragraph)
      end
  | _ :: _ => (formatted_lines, current_paragraph ++ [line])
  end.

(** The text of [format_as_html] after its three replacements. *)
Definition escape_html (text : list N) : list N :=
  replace (py ">") (py "&gt;")
    (replace (py "<") (py "&lt;") (replace (py "&") (py "&amp;") text)).

(** What [format_as_html] puts between the paragraph tags. *)
Definition paragraph_bodies (text : list N) : list (list N) :=
  List.map (re_sub_plus (N.eqb newline) [space] false)
    (List.map strip
       (List.filter (fun p => nonempty (strip p))
          (split [newline; newline] (escape_html text)))).

Definition less_than : N := 60.
Definition greater_than : N := 62.

(** [isinstance(v, dict)]. *)
Definition is_dict (v : pyvalue) : bool :=
  match v with VDict _ => true | _ => false end.

(** The truth value of [v.get('required', False)] for a dictionary [v]. *)
Definition required_flag (v : pyvalue) : bool :=
  match v with
  | VDict d => truthy (default_or (dict_get (py "required") d) (VBool false))
  | _ => false
  end.

Definition no_get : exn :=
  mk_exn AttributeError (py "object has no attribute 'get'").

Definition full_stop : N := 46.

Definition list_args : Namespace :=
  {| ns_command := Some ListPlugins; ns_output := None |}.

(** The world after some more lines were printed. *)
Definition with_stdout (w : World) (lines : list (list fragment)) : World :=
  mkWorld (environ w) (env_trace w) (stdout w ++ lines) (files w)
    (plugin_root w).

(** A heading, one bullet line per item and an empty line; nothing for no
    item. *)
Definition report_block (heading : list N) (items : list (list N))
    : list (list fragment) :=
  match items with
  | [] => []
  | _ :: _ => [Lit heading] :: List.map bullet_line items ++ [[]]
  end.

(** What [validate] prints once it has the two lists. *)
Definition validate_report (missing conflicts : list (list N))
    : list (list fragment) :=
  match missing, conflicts with
  | [], [] => [[Lit (py "✅ Environment configuration is valid!")]]
  | _, _ =>
      report_block (py "❌ Missing required environment variables:") missing
      ++ report_block (py "⚠️  Potential naming conflicts detected:")
           conflicts
  end.


(** * Properties *)

Section CoreFacts.
Context {RT : Runtime}.

Lemma parse_int_default : parse_int (py "10000") = Some 10000%Z.
Proof.
  change (py "10000") with [49; 48; 48; 48; 48].
  unfold parse_int.
  change (strip_by int_space [49; 48; 48; 48; 48]) with [49; 48; 48; 48; 48].
  cbv beta iota.
  change (49 =? 45) with false. change (49 =? 43) with false. cbv iota.
  unfold parse_digits.
  change (digit_of 49) with (Some 1%Z). cbv beta iota.
  change (digits_go 1 1 [48; 48; 48; 48]) with (Some (10000%Z, 5)).
  cbv beta iota.
  destruct int_max_str_digits_ok as [-> | H]; [reflexivity |].
  destruct (N.ltb_spec int_max_str_digits 5) as [Hlt | Hge]; [lia |].
  rewrite andb_false_r. reflexivity.
Qed.

Lemma max_length_read (w : World) (m : Z) :
  max_length_is w m ->
  parse_int (default_or (environ w !! MAX_LENGTH_VAR) (py "10000")) = Some m.
Proof.
  unfold max_length_is. destruct (environ w !! MAX_LENGTH_VAR) as [s |]; cbn.
  - auto.
  - intros ->. apply parse_int_default.
Qed.



Lemma bind_return {A B} (m : Py A) (k : A -> Py B) w a w' :
  m w = (Return a, w') -> bind m k w = k a w'.
Proof. intros H. unfold bind. rewrite H. reflexivity. Qed.

Lemma bind_raise {A B} (m : Py A) (k : A -> Py B) w e w' :
  m w = (Raise e, w') -> bind m k w = (Raise e, w').
Proof. intros H. unfold bind. rewrite H. reflexivity. Qed.

Lemma py_truediv_return (a b : Z) (w : World) :
  b <> 0%Z -> exists q, py_truediv a b w = (Return q, w).
Proof.
  intros Hb. unfold py_truediv.
  destruct (Z.eqb_spec b 0) as [-> | _]; [congruence |].
  eexists. reflexivity.
Qed.

Lemma py_int_return (s : list N) (m : Z) (w : World) :
  parse_int s = Some m -> py_int s w = (Return m, w).
Proof. intros H. unfold py_int. rewrite H. reflexivity. Qed.

Lemma len_cons_nonzero {A} (x : A) (l : list A) : len (x :: l) <> 0%Z.
Proof. unfold len. cbn [length]. lia. Qed.

(** Past the length check [analyze_text] meets no exception. *)
Lemma analyze_text_run (text : list N) (w : World) (m : Z) :
  max_length_is w m ->
  if (m <? len text)%Z then (analyze_text text w).1 = Raise (too_long m)
  else returns (analyze_text text w).1.
Proof.
  intros Hm. apply max_length_read in Hm.
  unfold analyze_text.
  erewrite bind_return by reflexivity.
  erewrite bind_return by (apply py_int_return, Hm).
  destruct (m <? len text)%Z; [reflexivity |].
  match goal with
  | |- context [py_truediv ?a 200%Z] =>
      destruct (py_truediv_return a 200 
                  (mkWorld (environ w) (env_trace w ++ [EnvRead MAX_LENGTH_VAR])
                     (stdout w) (files w) (plugin_root w))) as [rt Hrt];
      [discriminate |]
  end.
  destruct (split_ws text) as [| word words].
  - erewrite bind_return by reflexivity.
    erewrite bind_return by exact Hrt.
    eexists; reflexivity.
  - match goal with
    | |- context [py_truediv ?a (len (word :: words))] =>
        destruct (py_truediv_return a (len (word :: words))
                    (mkWorld (environ w)
                       (env_trace w ++ [EnvRead MAX_LENGTH_VAR])
                       (stdout w) (files w) (plugin_root w))) as [q Hq];
        [apply len_cons_nonzero |]
    end.
    erewrite (bind_return (bind _ _)) by (erewrite bind_return by exact Hq; reflexivity).
    erewrite bind_return by exact Hrt.
    eexists; reflexivity.
Qed.

Lemma summarize_text_run (text : list N) (max_sentences : Z) (w : World) (m : Z) :
  max_length_is w m ->
  if (m <? len text)%Z
  then (summarize_text text max_sentences w).1 = Raise (too_long m)
  else returns (summarize_text text max_sentences w).1.
Proof.
  intros Hm. apply max_length_read in Hm.
  unfold summarize_text.
  erewrite bind_return by reflexivity.
  erewrite bind_return by (apply py_int_return, Hm).
  destruct (m <? len text)%Z; [reflexivity |].
  destruct (len (sentences_of text) <=? max_sentences)%Z;
    eexists; reflexivity.
Qed.
End CoreFacts.

Section CoreProperties.
Context {RT : Runtime}.

(** C8. When [TEXT_PROCESSOR_MAX_LENGTH] is unset (the limit is then
    10000) or parses as the integer [m], and [max_sentences] is between 1
    and 10, [analyze_text] and [summarize_text] raise [ValueError] exactly
    when the text has more than [m] characters, and return normally exactly
    when it has at most [m]. *)
Theorem text_too_long_iff (text : list N) (max_sentences : Z) (w : World)
    (m : Z) :
  max_length_is w m ->
  (1 <= max_sentences <= 10)%Z ->
  (raises_ValueError (analyze_text text w).1 <-> (m < len text)%Z)
  /\ (returns (analyze_text text w).1 <-> (len text <= m)%Z)
  /\ (raises_ValueError (summarize_text text max_sentences w).1
      <-> (m < len text)%Z)
  /\ (returns (summarize_text text max_sentences w).1 <-> (len text <= m)%Z).
Proof.
  intros Hm _.
  pose proof (analyze_text_run text w m Hm) as Ha.
  pose proof (summarize_text_run text max_sentences w m Hm) as Hs.
  destruct (Z.ltb_spec m (len text)) as [Hlt | Hle].
  - rewrite Ha, Hs. repeat split; intros H; try lia;
      try (exists (too_long m); split; reflexivity);
      destruct H as [a H]; discriminate.
  - destruct Ha as [a Ha], Hs as [s Hs]. rewrite Ha, Hs.
    repeat split; intros H; try lia; try (eexists; reflexivity);
      destruct H as [e [H _]]; discriminate.
Qed.

(** C10. On a text within the configured maximum length whose sentences
    (the pieces between runs of full stops, exclamation and question marks,
    stripped, the empty ones dropped) number at most [max_sentences],
    [summarize_text] returns the text itself. *)
Theorem summarize_text_short_identity (text : list N) (max_sentences : Z)
    (w : World) (m : Z) :
  max_length_is w m ->
  (len text <= m)%Z ->
  (len (sentences_of text) <= max_sentences)%Z ->
  (summarize_text text max_sentences w).1 = Return text.
Proof.
  intros Hm Hlen Hfew. apply max_length_read in Hm.
  unfold summarize_text.
  erewrite bind_return by reflexivity.
  erewrite bind_return by (apply py_int_return, Hm).
  destruct (Z.ltb_spec m (len text)) as [Hlt | _]; [lia |].
  destruct (Z.leb_spec (len (sentences_of text)) max_sentences) as [_ | Hgt];
    [reflexivity | lia].
Qed.

End CoreProperties.

Lemma text_too_long_iff_witness :
  raises_ValueError
    (analyze_text (RT := ascii_runtime) (py "thirteen char") keyed_world).1
  <-> (12 < len (py "thirteen char"))%Z.
Proof.
  apply (text_too_long_iff (RT := ascii_runtime) (py "thirteen char") 3
           keyed_world 12).
  - vm_compute. reflexivity.
  - lia.
Defined.

Lemma summarize_text_short_identity_witness :
  (summarize_text (RT := ascii_runtime) (py "One. Two!") 3 keyed_world).1
  = Return (py "One. Two!").
Proof.
  apply (summarize_text_short_identity (RT := ascii_runtime) (py "One. Two!")
           3 keyed_world 12).
  - vm_compute. reflexivity.
  - vm_compute. discriminate.
  - vm_compute. discriminate.
Defined.

(** ** White space and quotes in [clean_text] *)

Section Whitespace.

Lemma re_sub_collapsed (t : list N) (b : bool) :
  collapsed (re_sub_plus isspace [space] b t) = true
  /\ (b = true -> head_ok (re_sub_plus isspace [space] true t) = true).
Proof.
  revert b. induction t as [| c t IH]; intros b; cbn [re_sub_plus].
  - split; reflexivity.
  - destruct (isspace c) eqn:Hc.
    + destruct b.
      * apply IH.
      * split; [| discriminate].
        change ([space] ++ re_sub_plus isspace [space] true t)
          with (space :: re_sub_plus isspace [space] true t).
        cbn [collapsed]. change (isspace space) with true.
        change (space =? space) with true. cbn [andb].
        destruct (IH true) as [H1 H2]. rewrite H1, (H2 eq_refl). reflexivity.
    + split.
      * cbn [collapsed]. rewrite Hc. cbn [andb]. apply IH.
      * intros _. cbn [head_ok]. rewrite Hc. reflexivity.
Qed.

Lemma re_sub_fixed (s : list N) (b : bool) :
  collapsed s = true ->
  (b = true -> head_ok s = true) ->
  re_sub_plus isspace [space] b s = s.
Proof.
  revert b. induction s as [| c s IH]; intros b Hs Hb;
    cbn [re_sub_plus]; [reflexivity |].
  cbn [collapsed] in Hs. apply andb_true_iff in Hs. destruct Hs as [Hc Hs].
  destruct (isspace c) eqn:Ec.
  - apply andb_true_iff in Hc. destruct Hc as [Hsp Hh].
    apply N.eqb_eq in Hsp. subst c.
    destruct b.
    + specialize (Hb eq_refl). cbn [head_ok] in Hb. rewrite Ec in Hb.
      discriminate.
    + cbn [app]. f_equal. apply IH; [exact Hs | intros _; exact Hh].
  - f_equal. apply IH; [exact Hs | discriminate].
Qed.

Lemma collapsed_dropwhile (p : N -> bool) (s : list N) :
  collapsed s = true -> collapsed (dropwhile p s) = true.
Proof.
  induction s as [| c s IH]; intros Hs; cbn [dropwhile]; [reflexivity |].
  destruct (p c); [| exact Hs].
  apply IH. cbn [collapsed] in Hs. apply andb_true_iff in Hs. apply Hs.
Qed.

Lemma head_ok_app (l m : list N) :
  l <> [] -> head_ok (l ++ m) = head_ok l.
Proof. destruct l; [congruence | reflexivity]. Qed.

Lemma collapsed_snoc (l : list N) (c : N) :
  collapsed (l ++ [c])
  = collapsed l
    && (if isspace c then (c =? space) && head_ok (rev l) else true).
Proof.
  induction l as [| a l IH].
  - cbn. destruct (isspace c), (c =? space); reflexivity.
  - change ((a :: l) ++ [c]) with (a :: (l ++ [c])).
    cbn [collapsed rev]. rewrite IH.
    destruct l as [| b l].
    + cbn. destruct (isspace a), (isspace c), (a =? space), (c =? space);
        reflexivity.
    + rewrite (head_ok_app (b :: l)) by discriminate.
      rewrite (head_ok_app (rev (b :: l))).
      2:{ cbn [rev]. intros H. apply app_eq_nil in H. destruct H; discriminate. }
      destruct (if isspace a then (a =? space) && head_ok (b :: l) else true),
        (collapsed (b :: l)),
        (if isspace c then (c =? space) && head_ok (rev (b :: l)) else true);
        reflexivity.
Qed.

Lemma collapsed_rev (s : list N) :
  collapsed s = true -> collapsed (rev s) = true.
Proof.
  induction s as [| c s IH]; intros Hs; [reflexivity |].
  cbn [rev]. rewrite collapsed_snoc, rev_involutive.
  cbn [collapsed] in Hs. apply andb_true_iff in Hs. destruct Hs as [Hc Hs].
  rewrite (IH Hs), Hc. reflexivity.
Qed.

Lemma collapsed_strip (s : list N) :
  collapsed s = true -> collapsed (strip s) = true.
Proof.
  intros Hs. unfold strip, strip_by.
  apply collapsed_rev, collapsed_dropwhile, collapsed_rev,
    collapsed_dropwhile, Hs.
Qed.

Lemma dropwhile_head (p : N -> bool) (s : list N) :
  match dropwhile p s with [] => True | d :: _ => p d = false end.
Proof.
  induction s as [| c s IH]; cbn [dropwhile]; [exact I |].
  destruct (p c) eqn:E; [exact IH | exact E].
Qed.

Lemma dropwhile_fixed (p : N -> bool) (s : list N) :
  match s with [] => True | d :: _ => p d = false end ->
  dropwhile p s = s.
Proof. destruct s as [| d s]; cbn [dropwhile]; [reflexivity |]. intros ->. reflexivity. Qed.

Lemma dropwhile_suffix (p : N -> bool) (s : list N) :
  exists pre, s = pre ++ dropwhile p s.
Proof.
  induction s as [| c s [pre IH]]; cbn [dropwhile].
  - exists []. reflexivity.
  - destruct (p c).
    + exists (c :: pre). cbn [app]. f_equal. exact IH.
    + exists []. reflexivity.
Qed.

Lemma strip_by_idempotent (p : N -> bool) (s : list N) :
  strip_by p (strip_by p s) = strip_by p s.
Proof.
  unfold strip_by.
  set (y := dropwhile p s). set (z := dropwhile p (rev y)).
  assert (Hz : dropwhile p z = z)
    by (apply dropwhile_fixed, dropwhile_head).
  assert (Hrz : dropwhile p (rev z) = rev z).
  { apply dropwhile_fixed.
    destruct (dropwhile_suffix p (rev y)) as [pre Hpre]. fold z in Hpre.
    assert (Hy : y = rev z ++ rev pre).
    { rewrite <- rev_app_distr, <- Hpre, rev_involutive. reflexivity. }
    pose proof (dropwhile_head p s) as Hh. fold y in Hh.
    destruct (rev z) as [| d r]; [exact I |].
    rewrite Hy in Hh. exact Hh. }
  rewrite Hrz, rev_involutive, Hz. reflexivity.
Qed.

(** Collapsing the white space and stripping is idempotent. *)
Lemma normalize_space_idempotent (t : list N) :
  let u := strip (re_sub_plus isspace [space] false t) in
  strip (re_sub_plus isspace [space] false u) = u.
Proof.
  intros u.
  assert (Hu : collapsed u = true)
    by (apply collapsed_strip, re_sub_collapsed).
  rewrite (re_sub_fixed u false Hu) by discriminate.
  apply strip_by_idempotent.
Qed.

Lemma replace_char (a b : N) (s : list N) :
  replace [a] [b] s = List.map (swap_char a b) s.
Proof.
  unfold replace.
  induction s as [| c s IH]; cbn [replace_go startswith List.map length];
    [reflexivity |].
  unfold swap_char at 1. rewrite N.eqb_sym.
  destruct (c =? a); cbn [andb app Nat.sub]; rewrite IH; reflexivity.
Qed.

Lemma normalize_quote_space (c : N) :
  isspace (normalize_quote c) = isspace c
  /\ (isspace c = true -> normalize_quote c = c)
  /\ normalize_quote (normalize_quote c) = normalize_quote c.
Proof.
  unfold normalize_quote, swap_char, dquote, squote.
  destruct (N.eqb_spec c 8220) as [-> | H1]; [repeat split; discriminate |].
  destruct (N.eqb_spec c 8221) as [-> | H2]; [repeat split; discriminate |].
  destruct (N.eqb_spec c 8216) as [-> | H3]; [repeat split; discriminate |].
  destruct (N.eqb_spec c 8217) as [-> | H4]; [repeat split; discriminate |].
  repeat split.
  apply N.eqb_neq in H1, H2, H3, H4. rewrite H1, H2, H3, H4. reflexivity.
Qed.

Lemma clean_text_intended_map (t : list N) :
  clean_text_intended t
  = List.map normalize_quote (strip (re_sub_plus isspace [space] false t)).
Proof.
  unfold clean_text_intended. cbv zeta.
  rewrite !replace_char, !List.map_map. reflexivity.
Qed.

Lemma dropwhile_map (s : list N) :
  dropwhile isspace (List.map normalize_quote s)
  = List.map normalize_quote (dropwhile isspace s).
Proof.
  induction s as [| c s IH]; cbn [List.map dropwhile]; [reflexivity |].
  rewrite (proj1 (normalize_quote_space c)).
  destruct (isspace c); [exact IH | reflexivity].
Qed.

Lemma strip_map (s : list N) :
  strip (List.map normalize_quote s) = List.map normalize_quote (strip s).
Proof.
  unfold strip, strip_by.
  rewrite dropwhile_map, <- List.map_rev, dropwhile_map, <- List.map_rev.
  reflexivity.
Qed.

Lemma head_ok_map (s : list N) :
  head_ok (List.map normalize_quote s) = head_ok s.
Proof.
  destruct s as [| c s]; cbn [List.map head_ok]; [reflexivity |].
  rewrite (proj1 (normalize_quote_space c)). reflexivity.
Qed.

Lemma collapsed_map (s : list N) :
  collapsed (List.map normalize_quote s) = collapsed s.
Proof.
  induction s as [| c s IH]; cbn [List.map collapsed]; [reflexivity |].
  rewrite IH, head_ok_map, (proj1 (normalize_quote_space c)).
  destruct (isspace c) eqn:E; [| reflexivity].
  rewrite (proj1 (proj2 (normalize_quote_space c)) E). reflexivity.
Qed.

(** With the replacements its comment announces, [clean_text] would be
    idempotent. *)
Lemma clean_text_intended_idempotent (t : list N) :
  clean_text_intended (clean_text_intended t) = clean_text_intended t.
Proof.
  rewrite !clean_text_intended_map.
  set (u := strip (re_sub_plus isspace [space] false t)).
  assert (Hu : collapsed u = true)
    by (apply collapsed_strip, re_sub_collapsed).
  rewrite re_sub_fixed; [| rewrite collapsed_map; exact Hu | discriminate].
  rewrite strip_map. unfold u at 1. unfold strip at 1.
  rewrite strip_by_idempotent. fold (strip (re_sub_plus isspace [space] false t)).
  fold u. rewrite List.map_map.
  apply List.map_ext. intros c. apply normalize_quote_space.
Qed.

End Whitespace.

(** C9. [clean_text] is not idempotent: on the text made of a comma, a
    space and a double quote, then the fifteen characters the last
    [replace] looks for, then a double quote and [).replace(], the first
    application leaves those fifteen characters and the second turns them
    into an apostrophe. *)
Theorem clean_text_twice_differs :
  clean_text clean_text_bad_input = quote_old
  /\ clean_text (clean_text clean_text_bad_input) = [squote]
  /\ clean_text (clean_text clean_text_bad_input)
     <> clean_text clean_text_bad_input.
Proof. vm_compute. repeat split; discriminate. Qed.

(** ** The CLI *)

Lemma bind_assoc {A B C} (m : Py A) (f : A -> Py B) (g : B -> Py C) w :
  bind (bind m f) g w = bind m (fun x => bind (f x) g) w.
Proof. unfold bind. destruct (m w) as [[a | e] w']; reflexivity. Qed.

Lemma bind_ret {A B} (a : A) (k : A -> Py B) w : bind (ret a) k w = k a w.
Proof. reflexivity. Qed.

Lemma bind_print {B} (line : list fragment) (k : unit -> Py B) w :
  bind (print line) k w = k tt (printed line w).
Proof. reflexivity. Qed.

Lemma for_each_print {A} (l : list A) (line : A -> list fragment) (w : World) :
  for_each l (fun x => print (line x)) w
  = (Return tt, fold_left (fun w x => printed (line x) w) l w).
Proof.
  revert w. induction l as [| x l IH]; intros w; cbn [for_each fold_left].
  - reflexivity.
  - rewrite bind_print. apply IH.
Qed.

Lemma bind_for_each_print {A B} (l : list A) (line : A -> list fragment)
    (k : unit -> Py B) w :
  bind (for_each l (fun x => print (line x))) k w
  = k tt (fold_left (fun w x => printed (line x) w) l w).
Proof. apply bind_return, for_each_print. Qed.

(** One step of a run: re-associate, pass a print or a [ret], or use what
    is known of a call. *)
Ltac py_step :=
  first
    [ rewrite bind_assoc
    | rewrite bind_print
    | rewrite bind_ret
    | rewrite bind_for_each_print
    | erewrite bind_return by eassumption ].

Section CLIFacts.
Context {M : Modules}.

Lemma main_return (c : command) (o : option (list N)) (w w' : World)
    (r : option Z) :
  func c {| ns_command := Some c; ns_output := o |} w = (Return r, w') ->
  main {| ns_command := Some c; ns_output := o |} w = (Return (or_zero r), w').
Proof.
  intros H. unfold main, try_except. cbn [ns_command].
  erewrite bind_return by exact H. reflexivity.
Qed.





End CLIFacts.



(** ** The bundled plugin *)

(** C3. The bundled [text_processor] plugin satisfies the bundle contract:
    its metadata block has name, version, description, author, platform,
    the runtime-version constraint, a sequence of dependencies and a
    mapping of environment variables whose one entry has a description and
    a required flag; its exports block lists the eight tools; and the
    loader's validation accepts the bundle with exactly these. *)
Theorem text_processor_satisfies_contract :
  satisfies_contract _module_info _module_exports = true
  /\ dict_get (py "tools") _module_exports
     = Some [t_analyze_text; t_summarize_text; t_clean_text; t_count_words;
             t_extract_keywords; t_format_as_markdown; t_format_as_html;
             t_format_as_list]
  /\ check_candidate text_processor_bundle
     = inr ({| md_name := py "Text Processor";
               md_identifier := py "text_processor";
               md_version := py "1.0.0";
               md_description :=
                 py "Advanced text processing utilities with multiple modules";
               md_author := py "AgentKit Team";
               md_platform := py "any";
               md_runtime_requires := py ">=3.10";
               md_dependencies := [py "pydantic>=2.0.0"];
               md_environment_variables :=
                 [{| ev_name := py "TEXT_PROCESSOR_MAX_LENGTH";
                     ev_description := py "Maximum text length to process";
                     ev_default := Some (py "10000");
                     ev_required := false |}] |},
            List.map py
              ["analyze_text"; "summarize_text"; "clean_text"; "count_words";
               "extract_keywords"; "format_as_markdown"; "format_as_html";
               "format_as_list"]%string).
Proof. vm_compute. repeat split. Qed.

(** ** The process environment is only read *)

Lemma kept_ret {A} (a : A) : world_kept (ret a).
Proof. intros w. reflexivity. Qed.

Lemma kept_raise {A} (e : exn) : world_kept (@raise A e).
Proof. intros w. reflexivity. Qed.

Lemma kept_bind {A B} (m : Py A) (k : A -> Py B) :
  world_kept m -> (forall a, world_kept (k a)) -> world_kept (bind m k).
Proof.
  intros Hm Hk w. unfold bind. specialize (Hm w).
  destruct (m w) as [[a | e] w']; cbn [snd] in *; subst w'.
  - apply Hk.
  - reflexivity.
Qed.

Lemma kept_py_truediv (a b : Z) : world_kept (py_truediv a b).
Proof.
  unfold py_truediv. destruct (b =? 0)%Z; [apply kept_raise | apply kept_ret].
Qed.

Lemma kept_py_int {RT : Runtime} (s : list N) : world_kept (py_int s).
Proof.
  unfold py_int. destruct (parse_int s); [apply kept_ret | apply kept_raise].
Qed.

Ltac kept :=
  repeat first
    [ apply kept_ret
    | apply kept_raise
    | apply kept_py_int
    | apply kept_py_truediv
    | apply kept_bind; [| intros ?]
    | progress cbv zeta
    | match goal with
      | |- world_kept (if ?b then _ else _) => destruct b
      | |- world_kept (match ?x with _ => _ end) => destruct x
      end ].

Lemma bind_kept_world {A B} (m : Py A) (k : A -> Py B) (w : World) :
  (forall a, world_kept (k a)) -> (bind m k w).2 = (m w).2.
Proof.
  intros Hk. unfold bind. destruct (m w) as [[a | e] w']; cbn [snd].
  - apply Hk.
  - reflexivity.
Qed.

Section ToolFrames.
Context {RT : Runtime}.

Lemma analyze_text_world (text : list N) (w : World) :
  (analyze_text text w).2
  = mkWorld (environ w) (env_trace w ++ [EnvRead MAX_LENGTH_VAR]) (stdout w)
      (files w) (plugin_root w).
Proof.
  unfold analyze_text. rewrite bind_kept_world; [reflexivity |].
  intros env_value. kept.
Qed.

Lemma summarize_text_world (text : list N) (max_sentences : Z) (w : World) :
  (summarize_text text max_sentences w).2
  = mkWorld (environ w) (env_trace w ++ [EnvRead MAX_LENGTH_VAR]) (stdout w)
      (files w) (plugin_root w).
Proof.
  unfold summarize_text. rewrite bind_kept_world; [reflexivity |].
  intros env_value. kept.
Qed.

Lemma run_tool_world (c : tool_call) (w : World) :
  (run_tool c w).2
  = mkWorld (environ w) (env_trace w ++ env_reads_of (called_tool c))
      (stdout w) (files w) (plugin_root w).
Proof.
  destruct c; cbn [run_tool called_tool env_reads_of];
    try (rewrite app_nil_r; destruct w; reflexivity).
  - apply analyze_text_world.
  - rewrite bind_kept_world by (intros r; apply kept_ret).
    apply summarize_text_world.
Qed.

End ToolFrames.

Section Frames.
Variable P : env_event -> Prop.

Lemma env_only_kept {A} (m : Py A) : world_kept m -> env_only P m.
Proof.
  intros Hm w. split; [rewrite Hm; reflexivity |].
  exists []. rewrite Hm, app_nil_r. split; [reflexivity | constructor].
Qed.

Lemma env_only_ret {A} (a : A) : env_only P (ret a).
Proof. apply env_only_kept, kept_ret. Qed.

Lemma env_only_raise {A} (e : exn) : env_only P (@raise A e).
Proof. apply env_only_kept, kept_raise. Qed.

Lemma env_only_print (line : list fragment) : env_only P (print line).
Proof.
  intros w. split; [reflexivity |].
  exists []. cbn. rewrite app_nil_r. split; [reflexivity | constructor].
Qed.

Lemma env_only_bind {A B} (m : Py A) (k : A -> Py B) :
  env_only P m -> (forall a, env_only P (k a)) -> env_only P (bind m k).
Proof.
  intros Hm Hk w. unfold bind. destruct (Hm w) as [Henv [ev [Htr Hev]]].
  destruct (m w) as [[a | e] w']; cbn [snd] in *.
  - destruct (Hk a w') as [Henv' [ev' [Htr' Hev']]].
    split; [congruence |].
    exists (ev ++ ev'). split.
    + rewrite Htr', Htr, app_assoc. reflexivity.
    + apply Forall_app. split; assumption.
  - split; [assumption |]. exists ev. split; assumption.
Qed.

Lemma env_only_try {A} (body : Py A) (handler : exn -> option (Py A)) :
  env_only P body ->
  (forall e h, handler e = Some h -> env_only P h) ->
  env_only P (try_except body handler).
Proof.
  intros Hb Hh w. unfold try_except. destruct (Hb w) as [Henv [ev [Htr Hev]]].
  destruct (body w) as [[a | e] w']; cbn [snd] in *.
  - split; [assumption |]. exists ev. split; assumption.
  - destruct (handler e) as [h |] eqn:Hhe; cbn [snd].
    + destruct (Hh e h Hhe w') as [Henv' [ev' [Htr' Hev']]].
      split; [congruence |].
      exists (ev ++ ev'). split.
      * rewrite Htr', Htr, app_assoc. reflexivity.
      * apply Forall_app. split; assumption.
    + split; [assumption |]. exists ev. split; assumption.
Qed.

Lemma env_only_for_each {A} (l : list A) (body : A -> Py unit) :
  (forall x, env_only P (body x)) -> env_only P (for_each l body).
Proof.
  intros Hb. induction l as [| x l IH]; cbn [for_each].
  - apply env_only_ret.
  - apply env_only_bind; [apply Hb | intros _; apply IH].
Qed.

Lemma env_only_map_py {A B} (f : A -> Py B) (l : list A) :
  (forall x, env_only P (f x)) -> env_only P (map_py f l).
Proof.
  intros Hf. induction l as [| x l IH]; cbn [map_py].
  - apply env_only_ret.
  - apply env_only_bind; [apply Hf | intros y].
    apply env_only_bind; [apply IH | intros ys; apply env_only_ret].
Qed.

Lemma env_only_filter_keys (keep : pyvalue -> Py bool)
    (items : list (list N * pyvalue)) :
  (forall v, env_only P (keep v)) -> env_only P (filter_keys keep items).
Proof.
  intros Hk. induction items as [| [k v] items IH]; cbn [filter_keys].
  - apply env_only_ret.
  - apply env_only_bind; [apply Hk | intros b].
    apply env_only_bind; [apply IH | intros ks; apply env_only_ret].
Qed.

Lemma env_only_value_get (v : pyvalue) (key : list N) (default : pyvalue) :
  env_only P (value_get v key default).
Proof. destruct v; first [apply env_only_ret | apply env_only_raise]. Qed.

Lemma env_only_value_items (v : pyvalue) : env_only P (value_items v).
Proof. destruct v; first [apply env_only_ret | apply env_only_raise]. Qed.

Lemma env_only_after_first_dot (t : list N) : env_only P (after_first_dot t).
Proof.
  induction t as [| c t IH]; cbn [after_first_dot].
  - apply env_only_raise.
  - destruct (c =? 46)%N; [apply env_only_ret | apply IH].
Qed.

Lemma env_only_is_required (v : pyvalue) : env_only P (is_required v).
Proof.
  apply env_only_bind; [apply env_only_value_get | intros r; apply env_only_ret].
Qed.

Lemma env_only_count_required (env_vars : list (list N * pyvalue)) :
  env_only P (count_required env_vars).
Proof.
  apply env_only_bind.
  - apply env_only_filter_keys, env_only_is_required.
  - intros ks. apply env_only_ret.
Qed.

End Frames.

Section CLIFrames.
Context {M : Modules}.
Variable P : env_event -> Prop.
Hypothesis modules_ok : modules_env_only P M.

Ltac frame :=
  repeat
    (cbv beta zeta;
     lazymatch goal with
     | |- env_only _ (bind _ _) => apply env_only_bind; [| intros ?]
     | |- env_only _ (ret _) => apply env_only_ret
     | |- env_only _ (raise _) => apply env_only_raise
     | |- env_only _ (print _) => apply env_only_print
     | |- env_only _ (value_get _ _ _) => apply env_only_value_get
     | |- env_only _ (value_items _) => apply env_only_value_items
     | |- env_only _ (count_required _) => apply env_only_count_required
     | |- env_only _ (is_required _) => apply env_only_is_required
     | |- env_only _ (after_first_dot _) => apply env_only_after_first_dot
     | |- env_only _ (for_each _ _) => apply env_only_for_each; intros ?
     | |- env_only _ (map_py _ _) => apply env_only_map_py; intros ?
     | |- env_only _ (filter_keys _ _) => apply env_only_filter_keys; intros ?
     | |- env_only _ (if ?b then _ else _) => destruct b
     | |- env_only _ (match ?x with _ => _ end) => destruct x
     | |- env_only _ _ => apply modules_ok
     end).

Lemma env_only_func (c : command) (args : Namespace) :
  env_only P (func c args).
Proof using modules_ok.
  destruct c; cbn [func];
    unfold cmd_generate, cmd_validate, cmd_summary, cmd_list, cmd_check,
      list_one_plugin, print_str; frame.
Qed.

Lemma env_only_main (args : Namespace) : env_only P (main args).
Proof using modules_ok.
  unfold main. destruct (ns_command args) as [c |].
  - apply env_only_try.
    + apply env_only_bind; [apply env_only_func | intros r; apply env_only_ret].
    + intros e h Hh.
      destruct (is_KeyboardInterrupt e).
      * injection Hh as <-. unfold print_str. frame.
      * destruct (is_Exception e); [| discriminate].
        injection Hh as <-. frame.
  - unfold print_help, print_str. frame.
Qed.

End CLIFrames.

(** The modelled loader and engine only read the environment. *)
Lemma env_only_env_lookup (name : list N) : env_only is_read (env_lookup name).
Proof.
  intros w. split; [reflexivity |].
  exists [EnvRead name]. split; [reflexivity |].
  constructor; [exact I | constructor].
Qed.

Lemma env_only_missing_required (specs : list (list N * EnvVarSpec)) :
  env_only is_read (missing_required specs).
Proof.
  induction specs as [| [name spec] specs IH]; cbn [missing_required].
  - apply env_only_ret.
  - destruct (ev_required spec); [| exact IH].
    apply env_only_bind; [apply env_only_env_lookup | intros value].
    apply env_only_bind; [exact IH | intros missing; apply env_only_ret].
Qed.

Lemma env_only_write_file (P : env_event -> Prop) (path content : list N) :
  env_only P (write_file path content).
Proof.
  intros w. split; [reflexivity |].
  exists []. cbn. rewrite app_nil_r. split; [reflexivity | constructor].
Qed.

Lemma env_only_print_skipped (P : env_event -> Prop) (st : load_state) :
  env_only P (print_skipped st).
Proof.
  apply env_only_for_each. intros [dir reason]. apply env_only_print.
Qed.

Lemma spec_modules_env_only : modules_env_only is_read spec_modules.
Proof.
  unfold modules_env_only. repeat apply conj.
  - intros silent w. destruct silent.
    + apply (env_only_ret is_read (load (plugin_root w)) w).
    + apply (env_only_bind is_read (print_skipped (load (plugin_root w)))
               (fun _ => ret (load (plugin_root w)))).
      * apply env_only_print_skipped.
      * intros _. apply env_only_ret.
  - intros p. apply env_only_ret.
  - intros p. apply env_only_ret.
  - intros p. apply env_only_ret.
  - intros e path. apply env_only_write_file.
  - intros e. apply env_only_ret.
  - intros e. apply env_only_missing_required.
  - intros e. apply env_only_ret.
  - intros e. apply env_only_ret.
Qed.

(** C4. Nothing writes to the process environment. A call of any tool of
    the plugin leaves [os.environ] as it was, and its only access to it is
    the one read of [TEXT_PROCESSOR_MAX_LENGTH] by [analyze_text] and
    [summarize_text]. A CLI command leaves [os.environ] as it was and makes
    no access of its own: whatever holds of every access made by the
    modules it calls holds of every access made during the command. *)
Theorem process_environment_read_only :
  (forall (RT : Runtime) (c : tool_call) (w : World),
      environ (run_tool c w).2 = environ w
      /\ env_trace (run_tool c w).2
         = env_trace w ++ env_reads_of (called_tool c))
  /\ (forall (M : Modules) (P : env_event -> Prop),
         modules_env_only P M ->
         forall args : Namespace, env_only P (main args)).
Proof.
  split.
  - intros RT c w. rewrite run_tool_world. split; reflexivity.
  - intros M P HM args. apply env_only_main, HM.
Qed.

Lemma process_environment_read_only_witness :
  environ (main (M := spec_modules) check_args keyed_world).2
  = environ keyed_world.
Proof.
  apply (proj2 process_environment_read_only spec_modules is_read
           spec_modules_env_only check_args keyed_world).
Defined.

(** ** The loader *)

Section Loader.




Lemma str_eqb_refl (k : list N) : str_eqb k k = true.
Proof. unfold str_eqb. apply bool_decide_eq_true. reflexivity. Qed.



















End Loader.


(** ** The merge of environment variables *)

Section Merge.

Lemma str_eqb_eq (a b : list N) : str_eqb a b = true <-> a = b.
Proof. unfold str_eqb. apply bool_decide_eq_true. Qed.

Lemma str_eqb_neq (a b : list N) : str_eqb a b = false <-> a <> b.
Proof. unfold str_eqb. apply bool_decide_eq_false. Qed.

Lemma dict_get_set_eq {V} (k : list N) (v : V) (d : list (list N * V)) :
  dict_get k (dict_set k v d) = Some v.
Proof.
  induction d as [| [k' v'] d IH]; cbn [dict_set dict_get].
  - rewrite str_eqb_refl. reflexivity.
  - destruct (str_eqb k k') eqn:E; cbn [dict_get]; rewrite ?E; auto.
    rewrite str_eqb_refl. reflexivity.
Qed.

Lemma dict_get_set_ne {V} (k k' : list N) (v : V) (d : list (list N * V)) :
  k <> k' -> dict_get k (dict_set k' v d) = dict_get k d.
Proof.
  intros Hne. induction d as [| [k'' v''] d IH]; cbn [dict_set dict_get].
  - apply str_eqb_neq in Hne. rewrite Hne. reflexivity.
  - destruct (str_eqb k' k'') eqn:E; cbn [dict_get].
    + apply str_eqb_eq in E. subst k''.
      apply str_eqb_neq in Hne. rewrite Hne. reflexivity.
    + destruct (str_eqb k k''); auto.
Qed.

Lemma declare_lookup (name : list N) (merged : list (list N * EnvVarSpec))
    (spec : EnvVarSpec) :
  dict_get name (declare merged spec)
  = if str_eqb (ev_name spec) name
    then merge_into (dict_get name merged) spec
    else dict_get name merged.
Proof.
  unfold declare, merge_into.
  destruct (str_eqb (ev_name spec) name) eqn:E.
  - apply str_eqb_eq in E. subst name.
    destruct (dict_get (ev_name spec) merged) as [old |];
      apply dict_get_set_eq.
  - apply str_eqb_neq in E.
    destruct (dict_get (ev_name spec) merged) as [old |];
      apply dict_get_set_ne; congruence.
Qed.

Lemma fold_declare_lookup (name : list N) (specs : list EnvVarSpec)
    (merged : list (list N * EnvVarSpec)) :
  dict_get name (fold_left declare specs merged)
  = fold_left merge_into
      (List.filter (fun spec => str_eqb (ev_name spec) name) specs)
      (dict_get name merged).
Proof.
  revert merged. induction specs as [| spec specs IH]; intros merged;
    cbn [fold_left List.filter]; [reflexivity |].
  rewrite IH, declare_lookup.
  destruct (str_eqb (ev_name spec) name); reflexivity.
Qed.

Lemma declared_filter (name : list N) (reg : PluginRegistry) :
  declared name reg
  = List.filter (fun spec => str_eqb (ev_name spec) name)
      (List.map snd (declarations reg)).
Proof.
  unfold declared, declarations_of.
  induction (declarations reg) as [| d ds IH]; cbn [List.filter List.map];
    [reflexivity |].
  destruct (str_eqb (ev_name d.2) name); cbn [List.map]; rewrite IH;
    reflexivity.
Qed.

Lemma fold_merge_into (rest : list EnvVarSpec) (first : EnvVarSpec) :
  fold_left merge_into rest (Some first)
  = Some (fold_left merge_spec rest first).
Proof.
  revert first. induction rest as [| spec rest IH]; intros first;
    cbn [fold_left]; [reflexivity |].
  apply IH.
Qed.

Lemma merged_required (rest : list EnvVarSpec) (first : EnvVarSpec) :
  ev_required (fold_left merge_spec rest first)
  = existsb ev_required (first :: rest).
Proof.
  revert first. induction rest as [| spec rest IH]; intros first;
    cbn [fold_left existsb].
  - rewrite orb_false_r. reflexivity.
  - rewrite IH. cbn [existsb merge_spec ev_required].
    rewrite orb_assoc. reflexivity.
Qed.

Lemma merged_description (rest : list EnvVarSpec) (first : EnvVarSpec) :
  ev_description (fold_left merge_spec rest first)
  = first_description (first :: rest).
Proof.
  unfold first_description.
  revert first. induction rest as [| spec rest IH]; intros first;
    cbn [fold_left List.map List.find].
  - destruct (ev_description first); reflexivity.
  - rewrite IH. cbn [List.map List.find merge_spec ev_description].
    destruct (ev_description first) as [| c s]; cbn [nonempty]; reflexivity.
Qed.

Lemma merged_default (rest : list EnvVarSpec) (first : EnvVarSpec) :
  ev_default (fold_left merge_spec rest first) = first_default first rest.
Proof.
  unfold first_default.
  revert first. induction rest as [| spec rest IH]; intros first;
    cbn [fold_left List.map List.find].
  - destruct (has_value (ev_default first)); reflexivity.
  - rewrite IH. cbn [List.map List.find merge_spec ev_default].
    destruct (has_value (ev_default first)) eqn:E1; rewrite ?E1;
      [reflexivity |].
    destruct (has_value (ev_default spec)) eqn:E2; rewrite ?E2, ?E1;
      [reflexivity |].
    reflexivity.
Qed.

Lemma existsb_Permutation {A} (f : A -> bool) (l l' : list A) :
  Permutation l l' -> existsb f l = existsb f l'.
Proof.
  induction 1 as [| x l l' _ IH | x y l | l l' l'' _ IH1 _ IH2];
    cbn [existsb].
  - reflexivity.
  - rewrite IH. reflexivity.
  - destruct (f x), (f y); reflexivity.
  - congruence.
Qed.

Lemma filter_Permutation' {A} (f : A -> bool) (l l' : list A) :
  Permutation l l' -> Permutation (List.filter f l) (List.filter f l').
Proof.
  induction 1 as [| x l l' _ IH | x y l | l l' l'' _ IH1 _ IH2];
    cbn [List.filter].
  - constructor.
  - destruct (f x); [constructor |]; exact IH.
  - destruct (f x), (f y); try reflexivity. constructor.
  - etransitivity; eassumption.
Qed.

Lemma flat_map_Permutation {A B} (f : A -> list B) (l l' : list A) :
  Permutation l l' -> Permutation (flat_map f l) (flat_map f l').
Proof.
  induction 1 as [| x l l' _ IH | x y l | l l' l'' _ IH1 _ IH2];
    cbn [flat_map].
  - constructor.
  - apply Permutation_app_head, IH.
  - rewrite !app_assoc. apply Permutation_app_tail, Permutation_app_comm.
  - etransitivity; eassumption.
Qed.

Lemma declared_Permutation (name : list N) (reg reg' : PluginRegistry) :
  Permutation (plugins reg) (plugins reg') ->
  Permutation (declared name reg) (declared name reg').
Proof.
  intros H. rewrite !declared_filter.
  apply filter_Permutation', Permutation_map.
  unfold declarations. apply flat_map_Permutation, H.
Qed.

Lemma merged_lookup (name : list N) (reg : PluginRegistry) :
  dict_get name (merged_env_vars reg)
  = match declared name reg with
    | [] => None
    | first :: rest => Some (fold_left merge_spec rest first)
    end.
Proof.
  unfold merged_env_vars. rewrite fold_declare_lookup, <- declared_filter.
  destruct (declared name reg) as [| first rest]; cbn [fold_left dict_get];
    [reflexivity |].
  apply fold_merge_into.
Qed.

(** C6. The merge rule of [get_all_env_vars]. A name nobody declares is
    absent. For a declared name the merged spec has as [required] the
    disjunction of the flags of all its declarations, as description the
    first non-empty one in iteration order and as default the first
    non-empty one; and its [required] is the same for every order of the
    plugins. *)
Theorem merge_rule (reg : PluginRegistry) (name : list N) :
  match declared name reg with
  | [] => dict_get name (merged_env_vars reg) = None
  | first :: rest =>
      exists spec,
        dict_get name (merged_env_vars reg) = Some spec
        /\ ev_required spec = existsb ev_required (first :: rest)
        /\ ev_description spec = first_description (first :: rest)
        /\ ev_default spec = first_default first rest
  end
  /\ (forall reg' : PluginRegistry,
         Permutation (plugins reg) (plugins reg') ->
         ev_required <$> dict_get name (merged_env_vars reg')
         = ev_required <$> dict_get name (merged_env_vars reg)).
Proof.
  split.
  - rewrite merged_lookup.
    destruct (declared name reg) as [| first rest]; [reflexivity |].
    eexists. split; [reflexivity |].
    split; [apply merged_required |].
    split; [apply merged_description | apply merged_default].
  - intros reg' Hperm. rewrite !merged_lookup.
    pose proof (declared_Permutation name reg reg' Hperm) as Hd.
    destruct (declared name reg) as [| first rest],
             (declared name reg') as [| first' rest'].
    + reflexivity.
    + apply Permutation_nil in Hd. discriminate.
    + symmetry in Hd. apply Permutation_nil in Hd. discriminate.
    + cbn [fmap option_fmap option_map]. rewrite !merged_required.
      f_equal. symmetry. apply existsb_Permutation, Hd.
Qed.

End Merge.

Lemma merge_rule_witness :
  ev_required <$> dict_get (py "TIMEOUT") (merged_env_vars two_plugins_swapped)
  = ev_required <$> dict_get (py "TIMEOUT") (merged_env_vars two_plugins).
Proof.
  apply (proj2 (merge_rule two_plugins (py "TIMEOUT")) two_plugins_swapped).
  apply perm_swap.
Defined.

(** ** The requirements file *)

Section Ordering.

Lemma str_ltb_irrefl (a : list N) : str_ltb a a = false.
Proof.
  induction a as [| x a IH]; cbn [str_ltb]; [reflexivity |].
  rewrite N.ltb_irrefl, N.eqb_refl, IH. reflexivity.
Qed.

Lemma str_ltb_trans (a b c : list N) :
  str_ltb a b = true -> str_ltb b c = true -> str_ltb a c = true.
Proof.
  revert b c. induction a as [| x a IH]; intros [| y b] [| z c];
    cbn [str_ltb]; try discriminate; try reflexivity.
  intros Hab Hbc.
  apply orb_true_iff in Hab. apply orb_true_iff in Hbc.
  apply orb_true_iff.
  destruct Hab as [Hxy | Hxy], Hbc as [Hyz | Hyz].
  - left. apply N.ltb_lt in Hxy, Hyz. apply N.ltb_lt. lia.
  - apply andb_true_iff in Hyz. destruct Hyz as [Hyz _].
    apply N.eqb_eq in Hyz. subst z. left. exact Hxy.
  - apply andb_true_iff in Hxy. destruct Hxy as [Hxy _].
    apply N.eqb_eq in Hxy. subst y. left. exact Hyz.
  - apply andb_true_iff in Hxy. destruct Hxy as [Hxy Hab].
    apply andb_true_iff in Hyz. destruct Hyz as [Hyz Hbc].
    apply N.eqb_eq in Hxy, Hyz. subst y z. right.
    rewrite N.eqb_refl. cbn [andb]. exact (IH b c Hab Hbc).
Qed.

Lemma str_ltb_total (a b : list N) :
  str_ltb a b = false -> str_ltb b a = false -> a = b.
Proof.
  revert b. induction a as [| x a IH]; intros [| y b]; cbn [str_ltb];
    try discriminate; [reflexivity |].
  intros Hab Hba.
  apply orb_false_iff in Hab. destruct Hab as [Hxy Hab].
  apply orb_false_iff in Hba. destruct Hba as [Hyx Hba].
  apply N.ltb_ge in Hxy, Hyx. assert (x = y) by lia. subst y.
  rewrite N.eqb_refl in Hab, Hba. cbn [andb] in Hab, Hba.
  f_equal. apply IH; assumption.
Qed.

Lemma elem_of_insert_sorted (x z : list N) (l : list (list N)) :
  z ∈ insert_sorted x l <-> z = x \/ z ∈ l.
Proof.
  induction l as [| y l IH]; cbn [insert_sorted].
  - rewrite list_elem_of_singleton, elem_of_nil. tauto.
  - destruct (str_ltb x y) eqn:Hxy.
    + rewrite elem_of_cons. tauto.
    + destruct (str_ltb y x) eqn:Hyx.
      * rewrite !elem_of_cons, IH. tauto.
      * assert (x = y) by (apply str_ltb_total; assumption). subst y.
        rewrite elem_of_cons. tauto.
Qed.

Lemma insert_sorted_sorted (x : list N) (l : list (list N)) :
  StronglySorted str_lt l -> StronglySorted str_lt (insert_sorted x l).
Proof.
  induction 1 as [| y l Hl IH Hy]; cbn [insert_sorted].
  - repeat constructor.
  - destruct (str_ltb x y) eqn:Hxy.
    + constructor; [constructor; assumption |].
      constructor; [exact Hxy |].
      eapply Forall_impl; [exact Hy |].
      intros z Hyz. exact (str_ltb_trans x y z Hxy Hyz).
    + destruct (str_ltb y x) eqn:Hyx; [| constructor; assumption].
      constructor; [exact IH |].
      apply Forall_forall. intros z Hz.
      apply elem_of_insert_sorted in Hz. destruct Hz as [-> | Hz].
      * exact Hyx.
      * rewrite Forall_forall in Hy. apply Hy, Hz.
Qed.

Lemma sorted_set_sorted (l : list (list N)) :
  StronglySorted str_lt (sorted_set l).
Proof.
  unfold sorted_set. induction l as [| x l IH]; cbn [foldr].
  - constructor.
  - apply insert_sorted_sorted, IH.
Qed.

Lemma elem_of_sorted_set (z : list N) (l : list (list N)) :
  z ∈ sorted_set l <-> z ∈ l.
Proof.
  unfold sorted_set. induction l as [| x l IH]; cbn [foldr].
  - reflexivity.
  - rewrite elem_of_insert_sorted, elem_of_cons, IH. reflexivity.
Qed.

Lemma sorted_head_not_in_tail (x : list N) (l : list (list N)) :
  StronglySorted str_lt (x :: l) -> x ∉ l.
Proof.
  intros H Hin. apply StronglySorted_inv in H. destruct H as [_ H].
  rewrite Forall_forall in H. specialize (H x Hin).
  unfold str_lt in H. rewrite str_ltb_irrefl in H. discriminate.
Qed.

Lemma sorted_NoDup (l : list (list N)) : StronglySorted str_lt l -> NoDup l.
Proof.
  induction l as [| x l IH]; intros H; [constructor |].
  apply NoDup_cons. split.
  - apply sorted_head_not_in_tail, H.
  - apply IH. apply StronglySorted_inv in H. apply H.
Qed.

(** A strictly sorted list is determined by its elements. *)
Lemma sorted_unique (l1 l2 : list (list N)) :
  StronglySorted str_lt l1 -> StronglySorted str_lt l2 ->
  (forall z, z ∈ l1 <-> z ∈ l2) -> l1 = l2.
Proof.
  revert l2. induction l1 as [| a l1 IH]; intros [| b l2] H1 H2 Hsame.
  - reflexivity.
  - exfalso. apply (not_elem_of_nil b), Hsame, list_elem_of_here.
  - exfalso. apply (not_elem_of_nil a), Hsame, list_elem_of_here.
  - pose proof (sorted_head_not_in_tail _ _ H1) as Ha.
    pose proof (sorted_head_not_in_tail _ _ H2) as Hb.
    apply StronglySorted_inv in H1. destruct H1 as [H1 Fa].
    apply StronglySorted_inv in H2. destruct H2 as [H2 Fb].
    rewrite Forall_forall in Fa, Fb.
    assert (a = b) as ->.
    { pose proof (proj1 (Hsame a) (list_elem_of_here _ _)) as Hab.
      pose proof (proj2 (Hsame b) (list_elem_of_here _ _)) as Hba.
      apply elem_of_cons in Hab, Hba.
      destruct Hab as [Hab | Hab]; [exact Hab |].
      destruct Hba as [Hba | Hba]; [symmetry; exact Hba |].
      pose proof (str_ltb_trans a b a (Fa b Hba) (Fb a Hab)) as Habs.
      rewrite str_ltb_irrefl in Habs. discriminate. }
    f_equal. apply IH; [exact H1 | exact H2 |].
    intros z. split; intros Hz.
    + pose proof (proj1 (Hsame z) (list_elem_of_further _ _ _ Hz)) as Hz'.
      apply elem_of_cons in Hz'. destruct Hz' as [-> | Hz']; [| exact Hz'].
      contradiction.
    + pose proof (proj2 (Hsame z) (list_elem_of_further _ _ _ Hz)) as Hz'.
      apply elem_of_cons in Hz'. destruct Hz' as [-> | Hz']; [| exact Hz'].
      contradiction.
Qed.

End Ordering.

Section Lines.

Lemma split_line (line rest : list N) :
  newline ∉ line ->
  split_go [newline] 0 (line ++ newline :: rest)
  = line :: split_go [newline] 0 rest.
Proof.
  induction line as [| c line IH]; intros Hnl; cbn [app split_go startswith].
  - rewrite N.eqb_refl. reflexivity.
  - apply not_elem_of_cons in Hnl. destruct Hnl as [Hc Hnl].
    destruct (N.eqb_spec newline c) as [E | _]; [congruence |].
    cbn [andb]. rewrite (IH Hnl). reflexivity.
Qed.

Lemma split_one_line (line : list N) :
  newline ∉ line -> split_go [newline] 0 line = [line].
Proof.
  induction line as [| c line IH]; intros Hnl; cbn [split_go startswith];
    [reflexivity |].
  apply not_elem_of_cons in Hnl. destruct Hnl as [Hc Hnl].
  destruct (N.eqb_spec newline c) as [E | _]; [congruence |].
  cbn [andb]. rewrite (IH Hnl). reflexivity.
Qed.

(** Lines without a line feed, joined by line feeds, split back into
    themselves. *)
Lemma split_join_lines (lines : list (list N)) :
  lines <> [] ->
  Forall (fun line => newline ∉ line) lines ->
  split [newline] (join [newline] lines) = lines.
Proof.
  unfold split. induction lines as [| x [| y rest] IH]; intros Hne Hall.
  - congruence.
  - cbn [join]. apply split_one_line. apply Forall_inv in Hall. exact Hall.
  - change (join [newline] (x :: y :: rest))
      with (x ++ newline :: join [newline] (y :: rest)).
    rewrite split_line by (apply Forall_inv in Hall; exact Hall).
    rewrite IH; [reflexivity | discriminate |].
    apply Forall_inv_tail in Hall. exact Hall.
Qed.

End Lines.

Section Requirements.
Variable third_party : list N -> bool.
Variable scan_imports : list N -> list (list N).

Lemma elem_of_combined (x : list N) (l : list (list N * PluginMetadata)) :
  x ∈ concat
        (List.map snd
           (List.map
              (fun '(identifier, md) =>
                 (identifier, extract third_party scan_imports md)) l))
  <-> exists p, p ∈ l /\ x ∈ extract third_party scan_imports p.2.
Proof.
  induction l as [| [identifier md] l IH]; cbn [List.map concat snd].
  - rewrite elem_of_nil. split; [tauto |].
    intros [p [Hp _]]. apply elem_of_nil in Hp. exact Hp.
  - rewrite elem_of_app, IH. split.
    + intros [H | [p [Hp H]]].
      * exists (identifier, md). split; [apply list_elem_of_here | exact H].
      * exists p. split; [apply list_elem_of_further, Hp | exact H].
    + intros [p [Hp H]]. apply elem_of_cons in Hp.
      destruct Hp as [-> | Hp]; [left; exact H |].
      right. exists p. split; assumption.
Qed.

Lemma elem_of_requirements (x : list N) (reg : PluginRegistry) :
  x ∈ (aggregate third_party scan_imports reg).2
  <-> exists p, p ∈ plugins reg /\ x ∈ extract third_party scan_imports p.2.
Proof.
  unfold aggregate. cbn [snd]. rewrite elem_of_sorted_set.
  apply elem_of_combined.
Qed.

(** C7. The requirements file is its lines joined by line feeds, and
    splits back into them when no specifier holds a line feed; the lines
    are in strictly increasing lexicographic order, so none occurs twice;
    they are exactly the specifiers some plugin of the registry requires;
    and the text is the same for every order of the plugins. Two plugins that
    require foo, bar and bar, baz give the lines bar, baz, foo. *)
Theorem requirements_sorted_unique (reg : PluginRegistry) :
  let lines := (aggregate third_party scan_imports reg).2 in
  generate_requirements third_party scan_imports reg = join [newline] lines
  /\ StronglySorted str_lt lines
  /\ NoDup lines
  /\ (forall x,
         x ∈ lines
         <-> exists p,
               p ∈ plugins reg /\ x ∈ extract third_party scan_imports p.2)
  /\ (lines <> [] ->
      Forall (fun line => newline ∉ line) lines ->
      split [newline] (generate_requirements third_party scan_imports reg)
      = lines)
  /\ (forall reg' : PluginRegistry,
         Permutation (plugins reg) (plugins reg') ->
         generate_requirements third_party scan_imports reg'
         = generate_requirements third_party scan_imports reg)
  /\ (aggregate third_party scan_imports two_plugins).2
     = [py "bar"; py "baz"; py "foo"]
  /\ generate_requirements third_party scan_imports two_plugins
     = py "bar" ++ [newline] ++ py "baz" ++ [newline] ++ py "foo".
Proof.
  intros lines.
  assert (Hsorted : forall r,
             StronglySorted str_lt (aggregate third_party scan_imports r).2).
  { intros r. unfold aggregate. cbn [snd]. apply sorted_set_sorted. }
  split; [reflexivity |].
  split; [apply Hsorted |].
  split; [apply sorted_NoDup, Hsorted |].
  split; [intros x; apply elem_of_requirements |].
  split; [apply split_join_lines |].
  split; [| split; vm_compute; reflexivity].
  intros reg' Hperm. unfold generate_requirements. f_equal.
  apply sorted_unique; [apply Hsorted | apply Hsorted |].
  intros z. rewrite !elem_of_requirements.
  split; intros [p [Hp Hz]]; exists p; split; try exact Hz.
  - rewrite Hperm. exact Hp.
  - rewrite <- Hperm. exact Hp.
Qed.

End Requirements.

Lemma requirements_sorted_unique_witness :
  generate_requirements (fun _ => true) (fun _ => []) two_plugins_swapped
  = generate_requirements (fun _ => true) (fun _ => []) two_plugins.
Proof.
  apply (proj1 (proj2 (proj2 (proj2 (proj2 (proj2
           (requirements_sorted_unique (fun _ => true) (fun _ => [])
              two_plugins))))))
           two_plugins_swapped).
  apply perm_swap.
Defined.

(** * Further properties of the tools and of the CLI *)

(** ** [clean_text] *)

Section CleanText.

Lemma startswith_length (p s : list N) :
  startswith p s = true -> (length p <= length s)%nat.
Proof.
  revert s. induction p as [| a p IH]; intros [| b s]; cbn [startswith length];
    try lia; try discriminate.
  intros H. apply andb_true_iff in H. destruct H as [_ H].
  specialize (IH s H). lia.
Qed.

Lemma replace_go_length (old new : list N) :
  (length new <= length old)%nat ->
  forall (s : list N) (k : nat),
    (length (replace_go old new k s) + Nat.min k (length s) <= length s)%nat.
Proof.
  intros Hlen. induction s as [| c s IH]; intros k; cbn [replace_go length].
  - lia.
  - destruct k as [| k].
    + destruct (startswith old (c :: s)) eqn:Hm.
      * apply startswith_length in Hm. cbn [length] in Hm.
        rewrite length_app. specialize (IH (length old - 1)%nat). lia.
      * cbn [length]. specialize (IH 0%nat). lia.
    + specialize (IH k). lia.
Qed.

Lemma re_sub_plus_length (cls : N -> bool) (x : N) (b : bool) (s : list N) :
  (length (re_sub_plus cls [x] b s) <= length s)%nat.
Proof.
  revert b. induction s as [| c s IH]; intros b; cbn [re_sub_plus length];
    [lia |].
  destruct (cls c).
  - destruct b; [specialize (IH true); lia |].
    cbn [app length]. specialize (IH true). lia.
  - cbn [length]. specialize (IH false). lia.
Qed.

Lemma dropwhile_length (p : N -> bool) (s : list N) :
  (length (dropwhile p s) <= length s)%nat.
Proof.
  induction s as [| c s IH]; cbn [dropwhile length]; [lia |].
  destruct (p c); cbn [length]; lia.
Qed.

Lemma strip_by_length (p : N -> bool) (s : list N) :
  (length (strip_by p s) <= length s)%nat.
Proof.
  unfold strip_by. rewrite length_rev.
  etransitivity; [apply dropwhile_length |].
  rewrite length_rev. apply dropwhile_length.
Qed.

Lemma replace_length (old new s : list N) :
  old <> [] -> (length new <= length old)%nat ->
  (length (replace old new s) <= length s)%nat.
Proof.
  intros Hne Hlen. unfold replace. destruct old as [| a old]; [congruence |].
  pose proof (replace_go_length (a :: old) new Hlen s 0). lia.
Qed.

(** X1. [clean_text] never returns more characters than it was given. *)
Theorem clean_text_never_longer (text : list N) :
  (len (clean_text text) <= len text)%Z.
Proof.
  unfold clean_text, len. cbv zeta. apply inj_le.
  etransitivity; [apply replace_length; [discriminate | vm_compute; lia] |].
  etransitivity; [apply replace_length; [discriminate | vm_compute; lia] |].
  etransitivity; [apply replace_length; [discriminate | vm_compute; lia] |].
  etransitivity; [apply strip_by_length |].
  apply re_sub_plus_length.
Qed.

Lemma elem_of_rev (c : N) (s : list N) : c ∈ rev s <-> c ∈ s.
Proof. rewrite !list_elem_of_In. symmetry. apply in_rev. Qed.

Lemma elem_of_dropwhile (p : N -> bool) (c : N) (s : list N) :
  c ∈ dropwhile p s -> c ∈ s.
Proof.
  induction s as [| d s IH]; cbn [dropwhile]; [auto |].
  destruct (p d); [| auto]. intros H. apply list_elem_of_further, IH, H.
Qed.

Lemma elem_of_dropwhile_keep (p : N -> bool) (c : N) (s : list N) :
  c ∈ s -> p c = false -> c ∈ dropwhile p s.
Proof.
  intros Hin Hc. induction s as [| d s IH]; cbn [dropwhile]; [exact Hin |].
  destruct (p d) eqn:Hd; [| exact Hin].
  apply elem_of_cons in Hin. destruct Hin as [-> | Hin]; [congruence |].
  apply IH, Hin.
Qed.

Lemma elem_of_strip_by (p : N -> bool) (c : N) (s : list N) :
  c ∈ strip_by p s -> c ∈ s.
Proof.
  unfold strip_by. rewrite elem_of_rev. intros H.
  apply elem_of_dropwhile in H. rewrite elem_of_rev in H.
  apply elem_of_dropwhile in H. exact H.
Qed.

Lemma elem_of_strip_by_keep (p : N -> bool) (c : N) (s : list N) :
  c ∈ s -> p c = false -> c ∈ strip_by p s.
Proof.
  intros Hin Hc. unfold strip_by. rewrite elem_of_rev.
  apply elem_of_dropwhile_keep; [| exact Hc]. rewrite elem_of_rev.
  apply elem_of_dropwhile_keep; assumption.
Qed.

Lemma elem_of_re_sub_plus (cls : N -> bool) (repl : list N) (b : bool)
    (c : N) (s : list N) :
  c ∈ re_sub_plus cls repl b s -> c ∈ s \/ c ∈ repl.
Proof.
  revert b. induction s as [| d s IH]; intros b; cbn [re_sub_plus].
  - intros H. left. exact H.
  - destruct (cls d).
    + destruct b.
      * intros H. destruct (IH true H) as [H' | H']; [left | right]; auto.
        apply list_elem_of_further, H'.
      * rewrite elem_of_app. intros [H | H]; [right; exact H |].
        destruct (IH true H) as [H' | H']; [left | right]; auto.
        apply list_elem_of_further, H'.
    + rewrite elem_of_cons. intros [-> | H]; [left; apply list_elem_of_here |].
      destruct (IH false H) as [H' | H']; [left | right]; auto.
      apply list_elem_of_further, H'.
Qed.

Lemma elem_of_re_sub_plus_keep (cls : N -> bool) (repl : list N) (b : bool)
    (c : N) (s : list N) :
  c ∈ s -> cls c = false -> c ∈ re_sub_plus cls repl b s.
Proof.
  intros Hin Hc. revert b.
  induction s as [| d s IH]; intros b; cbn [re_sub_plus]; [exact Hin |].
  apply elem_of_cons in Hin. destruct Hin as [-> | Hin].
  - rewrite Hc. apply list_elem_of_here.
  - destruct (cls d).
    + destruct b; [apply IH, Hin |].
      apply elem_of_app. right. apply IH, Hin.
    + apply list_elem_of_further, IH, Hin.
Qed.

Lemma elem_of_replace_go (old new : list N) (c : N) (s : list N) (k : nat) :
  c ∈ replace_go old new k s -> c ∈ s \/ c ∈ new.
Proof.
  revert k. induction s as [| d s IH]; intros k; cbn [replace_go].
  - intros H. left. exact H.
  - destruct k as [| k].
    + destruct (startswith old (d :: s)).
      * rewrite elem_of_app. intros [H | H]; [right; exact H |].
        destruct (IH _ H) as [H' | H']; [left | right]; auto.
        apply list_elem_of_further, H'.
      * rewrite elem_of_cons.
        intros [-> | H]; [left; apply list_elem_of_here |].
        destruct (IH _ H) as [H' | H']; [left | right]; auto.
        apply list_elem_of_further, H'.
    + intros H. destruct (IH _ H) as [H' | H']; [left | right]; auto.
      apply list_elem_of_further, H'.
Qed.

Lemma replace_go_nonempty (old new s : list N) :
  new <> [] -> s <> [] -> replace_go old new 0 s <> [].
Proof.
  intros Hnew Hs. destruct s as [| c s]; [congruence |]. cbn [replace_go].
  destruct (startswith old (c :: s)); [| discriminate].
  destruct new; [congruence | discriminate].
Qed.

Lemma last_ok_cons (c : N) (s : list N) :
  s <> [] -> last_ok (c :: s) = last_ok s.
Proof.
  intros Hs. unfold last_ok. cbn [rev]. apply head_ok_app.
  intros H. apply (f_equal (@rev N)) in H. rewrite rev_involutive in H.
  exact (Hs H).
Qed.

Lemma last_ok_app (l m : list N) : m <> [] -> last_ok (l ++ m) = last_ok m.
Proof.
  intros Hm. unfold last_ok. rewrite rev_app_distr. apply head_ok_app.
  intros H. apply (f_equal (@rev N)) in H. rewrite rev_involutive in H.
  exact (Hm H).
Qed.

Lemma head_ok_replace_go (old new s : list N) :
  new <> [] -> head_ok new = true -> head_ok s = true ->
  head_ok (replace_go old new 0 s) = true.
Proof.
  intros Hne Hnew Hs. destruct s as [| c s]; [reflexivity |].
  cbn [replace_go]. destruct (startswith old (c :: s)); [| exact Hs].
  rewrite head_ok_app by exact Hne. exact Hnew.
Qed.

Lemma last_ok_replace_go (old new : list N) :
  new <> [] -> last_ok new = true ->
  forall (s : list N) (k : nat),
    last_ok s = true -> last_ok (replace_go old new k s) = true.
Proof.
  intros Hne Hnew. induction s as [| c s IH]; intros k Hs; [reflexivity |].
  assert (Htail : s <> [] -> last_ok s = true)
    by (intros H; rewrite <- (last_ok_cons c s H); exact Hs).
  cbn [replace_go]. destruct k as [| k].
  - destruct (startswith old (c :: s)).
    + destruct (replace_go old new (length old - 1) s) as [| d r] eqn:Er.
      * rewrite app_nil_r. exact Hnew.
      * rewrite last_ok_app by discriminate. rewrite <- Er.
        apply IH. destruct s as [| e s]; [discriminate Er |].
        apply Htail. discriminate.
    + destruct s as [| e s]; [exact Hs |].
      rewrite last_ok_cons
        by (apply replace_go_nonempty; [exact Hne | discriminate]).
      apply IH, Htail. discriminate.
  - destruct s as [| e s]; [reflexivity |]. apply IH, Htail. discriminate.
Qed.

Lemma collapsed_plain (s : list N) :
  collapsed s = true -> only_plain_spaces s.
Proof.
  unfold only_plain_spaces.
  induction s as [| c s IH]; intros Hs; [constructor |].
  cbn [collapsed] in Hs. apply andb_true_iff in Hs. destruct Hs as [Hc Hs].
  constructor; [| apply IH, Hs].
  intros Ec. rewrite Ec in Hc. apply andb_true_iff in Hc.
  apply N.eqb_eq, Hc.
Qed.

Lemma head_ok_of_dropwhile (s : list N) :
  head_ok (dropwhile isspace s) = true.
Proof.
  pose proof (dropwhile_head isspace s) as H.
  destruct (dropwhile isspace s) as [| d r]; [reflexivity |].
  cbn [head_ok]. rewrite H. reflexivity.
Qed.

Lemma strip_ends (s : list N) :
  head_ok (strip s) = true /\ last_ok (strip s) = true.
Proof.
  split.
  - pose proof (strip_by_idempotent isspace s) as H.
    unfold strip_by at 1 in H. fold (strip s) in H.
    assert (Hz : head_ok (dropwhile isspace (strip s)) = true)
      by apply head_ok_of_dropwhile.
    destruct (dropwhile_suffix isspace (strip s)) as [pre Hpre].
    destruct (strip s) as [| d r] eqn:Es; [reflexivity |].
    cbn [head_ok]. destruct (isspace d) eqn:Ed; [| reflexivity].
    exfalso.
    assert (Hlen : (length (strip_by isspace (d :: r)) <= length r)%nat).
    { unfold strip_by. rewrite length_rev.
      etransitivity; [apply dropwhile_length |]. rewrite length_rev.
      cbn [dropwhile]. rewrite Ed. apply dropwhile_length. }
    unfold strip in Es. rewrite <- Es in Hlen at 1.
    rewrite strip_by_idempotent, Es in Hlen. cbn [length] in Hlen. lia.
  - unfold last_ok, strip, strip_by. rewrite rev_involutive.
    apply head_ok_of_dropwhile.
Qed.

Lemma replace_same_char (a : N) (s : list N) : replace [a] [a] s = s.
Proof.
  rewrite replace_char. rewrite <- (map_id s) at 2.
  apply List.map_ext. intros c. unfold swap_char.
  destruct (N.eqb_spec c a); congruence.
Qed.

Lemma clean_text_eq (text : list N) :
  clean_text text
  = replace_go quote_old [squote] 0
      (strip (re_sub_plus isspace [space] false text)).
Proof.
  unfold clean_text. cbv zeta. rewrite !replace_same_char. reflexivity.
Qed.

Lemma collapsed_replace_go (old : list N) (a : N) :
  isspace a = false ->
  forall (s : list N) (k : nat),
    collapsed s = true -> collapsed (replace_go old [a] k s) = true.
Proof.
  intros Ha. induction s as [| c s IH]; intros k Hs; [reflexivity |].
  cbn [collapsed] in Hs. apply andb_true_iff in Hs. destruct Hs as [Hc Hs].
  cbn [replace_go]. destruct k as [| k]; [| apply IH, Hs].
  destruct (startswith old (c :: s)).
  - cbn [app collapsed]. rewrite Ha. apply IH, Hs.
  - cbn [collapsed]. rewrite IH by exact Hs. rewrite andb_true_r.
    destruct (isspace c); [| reflexivity].
    apply andb_true_iff in Hc. destruct Hc as [Hc Hh].
    rewrite Hc. cbn [andb].
    apply head_ok_replace_go; [discriminate | | exact Hh].
    cbn [head_ok]. rewrite Ha. reflexivity.
Qed.

(** X2. What [clean_text] returns neither starts nor ends with white
    space, its only white-space characters are plain spaces (no tab, line
    feed or other space character is left), and the spaces are single: no
    white-space character follows another. *)
Theorem clean_text_shape (text : list N) :
  head_ok (clean_text text) = true
  /\ last_ok (clean_text text) = true
  /\ only_plain_spaces (clean_text text)
  /\ collapsed (clean_text text) = true.
Proof.
  rewrite clean_text_eq.
  set (u := strip (re_sub_plus isspace [space] false text)).
  destruct (strip_ends (re_sub_plus isspace [space] false text)) as [Hh Hl].
  fold u in Hh, Hl.
  assert (Hc : collapsed u = true)
    by (apply collapsed_strip, re_sub_collapsed).
  split; [| split; [| split]].
  - apply head_ok_replace_go; [discriminate | reflexivity | exact Hh].
  - apply last_ok_replace_go; [discriminate | reflexivity | exact Hl].
  - apply collapsed_plain, collapsed_replace_go; [reflexivity | exact Hc].
  - apply collapsed_replace_go; [reflexivity | exact Hc].
Qed.

Lemma dropwhile_blank (s : list N) : blank s -> dropwhile isspace s = [].
Proof.
  induction 1 as [| c s Hc _ IH]; cbn [dropwhile]; [reflexivity |].
  rewrite Hc. exact IH.
Qed.

Lemma re_sub_blank (b : bool) (s : list N) :
  blank s -> blank (re_sub_plus isspace [space] b s).
Proof.
  intros Hs. unfold blank in *. rewrite Forall_forall in *. intros c Hc.
  apply elem_of_re_sub_plus in Hc. destruct Hc as [Hc | Hc]; [auto |].
  apply list_elem_of_singleton in Hc. subst c. reflexivity.
Qed.

(** X3. [clean_text] returns the empty string exactly for the texts that
    hold nothing but white space, the empty text among them. *)
Theorem clean_text_empty_iff (text : list N) :
  clean_text text = [] <-> blank text.
Proof.
  rewrite clean_text_eq. split.
  - intros Hempty. unfold blank. apply Forall_forall. intros c Hc.
    destruct (isspace c) eqn:Ec; [reflexivity |]. exfalso.
    assert (Hin : c ∈ strip (re_sub_plus isspace [space] false text)).
    { apply elem_of_strip_by_keep; [| exact Ec].
      apply elem_of_re_sub_plus_keep; assumption. }
    revert Hempty. apply replace_go_nonempty; [discriminate |].
    intros E. rewrite E in Hin. apply elem_of_nil in Hin. exact Hin.
  - intros Hb. apply (re_sub_blank false) in Hb.
    unfold strip, strip_by. rewrite (dropwhile_blank _ Hb). reflexivity.
Qed.

End CleanText.

(** ** [extract_keywords] *)

Section Keywords.
Context {RT : Runtime}.

Lemma extract_keywords_eq (text : list N) (max_keywords : Z) :
  extract_keywords text max_keywords
  = List.map fst
      (slice_to max_keywords
         (sorted_by_freq (fold_left tally (keyword_words text) []))).
Proof. reflexivity. Qed.

Lemma occurrences_nonneg (w : list N) (words : list (list N)) :
  (0 <= occurrences w words)%Z.
Proof. unfold occurrences, len. lia. Qed.

Lemma occurrences_cons (w x : list N) (words : list (list N)) :
  occurrences w (x :: words)
  = ((if str_eqb w x then 1 else 0) + occurrences w words)%Z.
Proof.
  unfold occurrences, len. cbn [List.filter].
  destruct (str_eqb w x); cbn [length]; lia.
Qed.

Lemma tally_lookup (w word : list N) (wf : list (list N * Z)) :
  dict_get w (tally wf word)
  = if is_keyword w && str_eqb w word
    then Some (default_or (dict_get w wf) 0 + 1)%Z
    else dict_get w wf.
Proof.
  unfold tally. destruct (str_eqb w word) eqn:E.
  - apply str_eqb_eq in E. subst word.
    destruct (is_keyword w); cbn [andb]; [apply dict_get_set_eq | reflexivity].
  - rewrite andb_false_r. apply str_eqb_neq in E.
    destruct (is_keyword word); [| reflexivity].
    apply dict_get_set_ne, E.
Qed.

(** After the loop a word has an entry exactly when it passes the test and
    occurs, and the entry counts its occurrences. *)
Lemma fold_tally_lookup (w : list N) (words : list (list N))
    (wf : list (list N * Z)) :
  dict_get w (fold_left tally words wf)
  = let n := if is_keyword w then occurrences w words else 0%Z in
    if (n =? 0)%Z then dict_get w wf
    else Some (default_or (dict_get w wf) 0 + n)%Z.
Proof.
  revert wf. induction words as [| x words IH]; intros wf; cbn [fold_left].
  - cbv zeta. destruct (is_keyword w); reflexivity.
  - rewrite IH, tally_lookup, occurrences_cons. cbv zeta.
    pose proof (occurrences_nonneg w words) as Hn.
    destruct (is_keyword w); cbn [andb]; [| reflexivity].
    destruct (str_eqb w x).
    + destruct (Z.eqb_spec (occurrences w words) 0) as [E | E];
        destruct (Z.eqb_spec (1 + occurrences w words) 0); try lia;
        cbn [default_or]; f_equal; lia.
    + cbn [Z.add]. reflexivity.
Qed.

Lemma dict_set_keys {V} (k : list N) (v : V) (d : list (list N * V)) :
  List.map fst (dict_set k v d)
  = if has_key k d then List.map fst d else List.map fst d ++ [k].
Proof.
  unfold has_key. induction d as [| [k' v'] d IH]; cbn [dict_set dict_get List.map fst app];
    [reflexivity |].
  destruct (str_eqb k k') eqn:E; cbn [List.map fst].
  - apply str_eqb_eq in E. subst k'. reflexivity.
  - rewrite IH. destruct (dict_get k d); reflexivity.
Qed.

Lemma dict_get_of_key {V} (k : list N) (d : list (list N * V)) :
  k ∈ List.map fst d -> exists v, dict_get k d = Some v.
Proof.
  induction d as [| [k' v'] d IH]; cbn [List.map fst dict_get].
  - intros H. apply elem_of_nil in H. contradiction.
  - intros H. destruct (str_eqb k k') eqn:E; [eauto |].
    apply str_eqb_neq in E. apply elem_of_cons in H.
    destruct H as [H | H]; [congruence | auto].
Qed.

Lemma dict_get_of_entry {V} (k : list N) (v : V) (d : list (list N * V)) :
  NoDup (List.map fst d) -> (k, v) ∈ d -> dict_get k d = Some v.
Proof.
  induction d as [| [k' v'] d IH]; cbn [List.map fst dict_get]; intros Hnd Hin.
  - apply elem_of_nil in Hin. contradiction.
  - apply NoDup_cons in Hnd. destruct Hnd as [Hk Hnd].
    apply elem_of_cons in Hin. destruct Hin as [Hin | Hin].
    + injection Hin as -> ->. rewrite str_eqb_refl. reflexivity.
    + destruct (str_eqb k k') eqn:E; [| auto].
      apply str_eqb_eq in E. subst k'. exfalso. apply Hk.
      apply list_elem_of_In. apply (in_map fst d (k, v)).
      apply list_elem_of_In, Hin.
Qed.

Lemma tally_NoDup (wf : list (list N * Z)) (word : list N) :
  NoDup (List.map fst wf) -> NoDup (List.map fst (tally wf word)).
Proof.
  intros H. unfold tally. destruct (is_keyword word); [| exact H].
  rewrite dict_set_keys. destruct (has_key word wf) eqn:E; [exact H |].
  apply NoDup_app. split; [exact H | split].
  - intros x Hx Hx'. apply list_elem_of_singleton in Hx'. subst x.
    destruct (dict_get_of_key word wf Hx) as [v Hv].
    unfold has_key in E. rewrite Hv in E. discriminate.
  - apply NoDup_singleton.
Qed.

Lemma fold_tally_NoDup (words : list (list N)) (wf : list (list N * Z)) :
  NoDup (List.map fst wf) ->
  NoDup (List.map fst (fold_left tally words wf)).
Proof.
  revert wf. induction words as [| x words IH]; intros wf H; cbn [fold_left];
    [exact H |].
  apply IH, tally_NoDup, H.
Qed.

Lemma insert_by_freq_Permutation (x : list N * Z) (l : list (list N * Z)) :
  Permutation (x :: l) (insert_by_freq x l).
Proof.
  induction l as [| y l IH]; cbn [insert_by_freq]; [reflexivity |].
  destruct (x.2 <? y.2)%Z; [| reflexivity].
  rewrite perm_swap. apply perm_skip, IH.
Qed.

Lemma sorted_by_freq_Permutation (l : list (list N * Z)) :
  Permutation l (sorted_by_freq l).
Proof.
  unfold sorted_by_freq. induction l as [| x l IH]; cbn [foldr];
    [reflexivity |].
  rewrite <- insert_by_freq_Permutation. apply perm_skip, IH.
Qed.

Lemma insert_by_freq_sorted (x : list N * Z) (l : list (list N * Z)) :
  StronglySorted freq_ge l -> StronglySorted freq_ge (insert_by_freq x l).
Proof.
  induction 1 as [| y l Hl IH Hy]; cbn [insert_by_freq].
  - repeat constructor.
  - destruct (Z.ltb_spec x.2 y.2) as [Hlt | Hge].
    + constructor; [exact IH |].
      rewrite <- insert_by_freq_Permutation.
      constructor; [unfold freq_ge; lia | exact Hy].
    + constructor; [constructor; assumption |].
      constructor; [exact Hge |].
      eapply Forall_impl; [exact Hy |].
      intros z Hz. unfold freq_ge in *. lia.
Qed.

Lemma sorted_by_freq_sorted (l : list (list N * Z)) :
  StronglySorted freq_ge (sorted_by_freq l).
Proof.
  unfold sorted_by_freq. induction l as [| x l IH]; cbn [foldr].
  - constructor.
  - apply insert_by_freq_sorted, IH.
Qed.

Lemma slice_to_take {A} (k : Z) (l : list A) :
  exists n, slice_to k l = take n l.
Proof. unfold slice_to. destruct (0 <=? k)%Z; eexists; reflexivity. Qed.

Lemma StronglySorted_take {A} (R : A -> A -> Prop) (n : nat) (l : list A) :
  StronglySorted R l -> StronglySorted R (take n l).
Proof.
  intros H. revert n. induction H as [| x l Hl IH Hx]; intros [| n];
    cbn [take firstn]; try constructor.
  - apply IH.
  - apply Forall_take, Hx.
Qed.

(** The entries of the frequency table of a text. *)
Lemma word_freq_entry (text : list N) (w : list N) (n : Z) :
  (w, n) ∈ fold_left tally (keyword_words text) [] ->
  is_keyword w = true
  /\ n = occurrences w (keyword_words text)
  /\ (0 < n)%Z.
Proof.
  intros Hin.
  assert (Hnd : NoDup (List.map fst (fold_left tally (keyword_words text) [])))
    by (apply fold_tally_NoDup; constructor).
  pose proof (dict_get_of_entry w n _ Hnd Hin) as Hget.
  rewrite fold_tally_lookup in Hget. cbv zeta in Hget.
  pose proof (occurrences_nonneg w (keyword_words text)) as Hn.
  destruct (is_keyword w); cbn [Z.eqb dict_get] in Hget; [| discriminate].
  destruct (Z.eqb_spec (occurrences w (keyword_words text)) 0) as [E | E];
    [discriminate |].
  cbn [dict_get default_or] in Hget. injection Hget as <-.
  repeat split; lia.
Qed.

Lemma occurrences_pos_elem (w : list N) (words : list (list N)) :
  (0 < occurrences w words)%Z -> w ∈ words.
Proof.
  induction words as [| x words IH]; [unfold occurrences, len; cbn; lia |].
  rewrite occurrences_cons. destruct (str_eqb w x) eqn:E.
  - intros _. apply str_eqb_eq in E. subst x. apply list_elem_of_here.
  - intros H. apply list_elem_of_further, IH. lia.
Qed.

Lemma is_keyword_spec (w : list N) :
  is_keyword w = true -> (2 < len w)%Z /\ (w ∉ stop_words).
Proof.
  unfold is_keyword. intros H. apply andb_true_iff in H.
  destruct H as [Hlen Hstop]. split; [apply Z.ltb_lt, Hlen |].
  intros Hin. apply negb_true_iff in Hstop.
  assert (existsb (str_eqb w) stop_words = true); [| congruence].
  apply existsb_exists. exists w. split; [| apply str_eqb_refl].
  apply list_elem_of_In, Hin.
Qed.

(** X4. The keywords [extract_keywords] returns are pairwise distinct;
    each has more than two characters, is no stop word and is a word of
    the cleaned, lower-cased text. *)
Theorem extract_keywords_sound (text : list N) (max_keywords : Z) :
  NoDup (extract_keywords text max_keywords)
  /\ Forall (fun w => (2 < len w)%Z /\ (w ∉ stop_words)
                      /\ (w ∈ keyword_words text))
       (extract_keywords text max_keywords).
Proof.
  rewrite extract_keywords_eq.
  set (freq := fold_left tally (keyword_words text) []).
  destruct (slice_to_take max_keywords (sorted_by_freq freq)) as [n ->].
  rewrite <- firstn_map.
  assert (Hnd : NoDup (List.map fst (sorted_by_freq freq))).
  { rewrite <- (Permutation_map fst (sorted_by_freq_Permutation freq)).
    apply fold_tally_NoDup. constructor. }
  split.
  - exact (sublist_NoDup _ _ Hnd (sublist_take _ n)).
  - apply Forall_take. apply Forall_forall. intros w Hw.
    apply list_elem_of_In, in_map_iff in Hw.
    destruct Hw as [[w' c] [Hfst Hin]]. cbn [fst] in Hfst. subst w'.
    apply list_elem_of_In in Hin.
    rewrite <- sorted_by_freq_Permutation in Hin.
    destruct (word_freq_entry text w c Hin) as [Hk [Hc Hpos]].
    destruct (is_keyword_spec w Hk) as [Hlen Hstop].
    repeat split; [exact Hlen | exact Hstop |].
    apply occurrences_pos_elem. lia.
Qed.

(** X5. The keywords come in non-increasing order of the number of their
    occurrences among the words of the cleaned, lower-cased text. *)
Theorem extract_keywords_by_frequency (text : list N) (max_keywords : Z) :
  StronglySorted
    (fun a b =>
       (occurrences b (keyword_words text)
        <= occurrences a (keyword_words text))%Z)
    (extract_keywords text max_keywords).
Proof.
  rewrite extract_keywords_eq.
  set (freq := fold_left tally (keyword_words text) []).
  destruct (slice_to_take max_keywords (sorted_by_freq freq)) as [n ->].
  assert (Hall : Forall (fun p => p.2 = occurrences p.1 (keyword_words text))
                   (take n (sorted_by_freq freq))).
  { apply Forall_take, Forall_forall. intros [w c] Hin.
    rewrite <- sorted_by_freq_Permutation in Hin.
    apply (word_freq_entry text w c Hin). }
  pose proof (StronglySorted_take freq_ge n _ (sorted_by_freq_sorted freq))
    as Hs.
  induction Hs as [| p l Hl IH Hp]; cbn [List.map]; [constructor |].
  apply Forall_cons in Hall. destruct Hall as [Hp' Hall].
  constructor; [apply IH, Hall |].
  apply Forall_forall. intros w Hw.
  apply list_elem_of_In, in_map_iff in Hw.
  destruct Hw as [q [<- Hq]]. apply list_elem_of_In in Hq.
  rewrite Forall_forall in Hp, Hall.
  specialize (Hp q Hq). specialize (Hall q Hq). unfold freq_ge in Hp.
  rewrite <- Hp', <- Hall. exact Hp.
Qed.

(** X6. For a non-negative [max_keywords], [extract_keywords] returns at
    most that many keywords. *)
Theorem extract_keywords_bound (text : list N) (max_keywords : Z) :
  (0 <= max_keywords)%Z ->
  (len (extract_keywords text max_keywords) <= max_keywords)%Z.
Proof.
  intros Hk. rewrite extract_keywords_eq. unfold slice_to, len.
  destruct (Z.leb_spec 0 max_keywords) as [_ | Hneg]; [| lia].
  rewrite length_map, length_take. lia.
Qed.

End Keywords.

Lemma extract_keywords_bound_witness :
  (len (extract_keywords (RT := ascii_runtime)
          (py "Apple banana apple cherry banana apple") 2) <= 2)%Z.
Proof.
  apply (extract_keywords_bound (RT := ascii_runtime)
           (py "Apple banana apple cherry banana apple") 2).
  lia.
Defined.

(** ** [analyze_text] *)

Section Analysis.
Context {RT : Runtime}.

Lemma analysis_lookup (a b c d e f g h : pyvalue) :
  let o :=
    Return
      (VDict
         [(py "character_count", a); (py "character_count_no_spaces", b);
          (py "word_count", c); (py "line_count", d);
          (py "paragraph_count", e); (py "sentence_count", f);
          (py "average_word_length", g); (py "reading_time_minutes", h)]) in
  field_of "character_count" o = Some a
  /\ field_of "character_count_no_spaces" o = Some b
  /\ field_of "word_count" o = Some c
  /\ field_of "line_count" o = Some d
  /\ field_of "paragraph_count" o = Some e
  /\ field_of "sentence_count" o = Some f
  /\ field_of "average_word_length" o = Some g
  /\ field_of "reading_time_minutes" o = Some h.
Proof. vm_compute. repeat split. Qed.

(** What [analyze_text] returns on a text within the limit. *)
Lemma analyze_text_result (text : list N) (w : World) (m : Z) :
  max_length_is w m ->
  (len text <= m)%Z ->
  exists avg rt,
    (analyze_text text w).1
    = Return
        (VDict
           [(py "character_count", VInt (len text));
            (py "character_count_no_spaces",
             VInt (len (replace [space] [] text)));
            (py "word_count", VInt (count_words text));
            (py "line_count", VInt (len (split [newline] text)));
            (py "paragraph_count",
             VInt (len (List.filter (fun p => nonempty (strip p))
                          (split [newline; newline] text))));
            (py "sentence_count",
             VInt (len (re_findall_plus (char_in (py ".!?")) text)));
            (py "average_word_length", py_round avg 2);
            (py "reading_time_minutes", py_round (VFloat rt) 1)])
    /\ match split_ws text with
       | [] => avg = VInt 0
       | _ :: _ => exists q, avg = VFloat q
       end.
Proof.
  intros Hm Hlen. apply max_length_read in Hm.
  unfold analyze_text.
  erewrite bind_return by reflexivity.
  erewrite bind_return by (apply py_int_return, Hm).
  destruct (Z.ltb_spec m (len text)) as [Hlt | _]; [lia |].
  match goal with
  | |- context [py_truediv ?a 200%Z] =>
      destruct (py_truediv_return a 200
                  (mkWorld (environ w) (env_trace w ++ [EnvRead MAX_LENGTH_VAR])
                     (stdout w) (files w) (plugin_root w))) as [rt Hrt];
      [discriminate |]
  end.
  destruct (split_ws text) as [| word words].
  - exists (VInt 0), rt.
    erewrite bind_return by reflexivity.
    erewrite bind_return by exact Hrt.
    split; reflexivity.
  - match goal with
    | |- context [py_truediv ?a (len (word :: words))] =>
        destruct (py_truediv_return a (len (word :: words))
                    (mkWorld (environ w)
                       (env_trace w ++ [EnvRead MAX_LENGTH_VAR])
                       (stdout w) (files w) (plugin_root w))) as [q Hq];
        [apply len_cons_nonzero |]
    end.
    exists (VFloat q), rt.
    erewrite (bind_return (bind _ _))
      by (erewrite bind_return by exact Hq; reflexivity).
    erewrite bind_return by exact Hrt.
    split; [reflexivity | eexists; reflexivity].
Qed.

Lemma filter_length_split {A} (f : A -> bool) (l : list A) :
  (length (List.filter f l) + length (List.filter (fun x => negb (f x)) l)
   = length l)%nat.
Proof.
  induction l as [| x l IH]; cbn [List.filter length]; [reflexivity |].
  destruct (f x); cbn [negb length]; lia.
Qed.

Lemma replace_remove_char (a : N) (s : list N) :
  replace [a] [] s = List.filter (fun c => negb (a =? c)) s.
Proof.
  unfold replace.
  induction s as [| c s IH]; cbn [replace_go startswith List.filter length];
    [reflexivity |].
  destruct (a =? c); cbn [andb negb app Nat.sub]; rewrite IH; reflexivity.
Qed.

Lemma split_go_nonempty (sep s : list N) (k : nat) : split_go sep k s <> [].
Proof.
  revert k. induction s as [| c s IH]; intros k; cbn [split_go];
    [discriminate |].
  destruct k as [| k]; [| apply IH].
  destruct (startswith sep (c :: s)); [discriminate |].
  specialize (IH 0%nat). destruct (split_go sep 0 s); [congruence |].
  discriminate.
Qed.

Lemma cons_head_length (c : N) (l : list (list N)) :
  l <> [] -> length (cons_head c l) = length l.
Proof. destruct l; [congruence | reflexivity]. Qed.

Lemma split_char_length (a : N) (s : list N) :
  length (split_go [a] 0 s) = S (length (List.filter (N.eqb a) s)).
Proof.
  induction s as [| c s IH]; cbn [split_go startswith List.filter length];
    [reflexivity |].
  destruct (a =? c); cbn [andb length Nat.sub].
  - rewrite IH. reflexivity.
  - rewrite cons_head_length by apply split_go_nonempty. exact IH.
Qed.

(** X7. On a text within the limit [analyze_text] reports as
    [character_count] the length of the text, as
    [character_count_no_spaces] that length less the number of plain
    spaces, and as [line_count] one more than the number of line feeds, so
    at least 1 even for the empty text. *)
Theorem analyze_text_counts (text : list N) (w : World) (m : Z) :
  max_length_is w m ->
  (len text <= m)%Z ->
  field_of "character_count" (analyze_text text w).1 = Some (VInt (len text))
  /\ field_of "character_count_no_spaces" (analyze_text text w).1
     = Some (VInt (len text - count_char space text))
  /\ field_of "line_count" (analyze_text text w).1
     = Some (VInt (1 + count_char newline text)).
Proof.
  intros Hm Hlen.
  destruct (analyze_text_result text w m Hm Hlen) as [avg [rt [-> _]]].
  match goal with
  | |- context [Return (VDict [(_, ?a); (_, ?b); (_, ?c); (_, ?d); (_, ?e);
                               (_, ?f); (_, ?g); (_, ?h)])] =>
      destruct (analysis_lookup a b c d e f g h)
        as (Ha & Hb & _ & Hd & _)
  end.
  cbv zeta in Ha, Hb, Hd. rewrite Ha, Hb, Hd.
  split; [reflexivity | split]; do 2 f_equal.
  - rewrite replace_remove_char. unfold count_char, len.
    pose proof (filter_length_split (N.eqb space) text). lia.
  - unfold split, count_char, len. rewrite split_char_length. lia.
Qed.

Lemma not_sentence_end (c : N) :
  isspace c = true -> char_in (py ".!?") c = false.
Proof.
  intros Hc. change (py ".!?") with [46; 33; 63]. unfold char_in.
  cbn [existsb].
  destruct (N.eqb_spec c 46) as [-> | _]; [discriminate Hc |].
  destruct (N.eqb_spec c 33) as [-> | _]; [discriminate Hc |].
  destruct (N.eqb_spec c 63) as [-> | _]; [discriminate Hc |].
  reflexivity.
Qed.

Lemma re_findall_none (cls : N -> bool) (s : list N) :
  Forall (fun c => cls c = false) s -> re_findall_plus cls s = [].
Proof.
  induction 1 as [| c s Hc _ IH]; cbn [re_findall_plus]; [reflexivity |].
  rewrite Hc. exact IH.
Qed.

Lemma cons_head_blank (c : N) (l : list (list N)) :
  isspace c = true -> Forall blank l -> Forall blank (cons_head c l).
Proof.
  intros Hc Hl. destruct l as [| p l]; cbn [cons_head].
  - repeat constructor. exact Hc.
  - apply Forall_cons in Hl. destruct Hl as [Hp Hl].
    constructor; [constructor; assumption | exact Hl].
Qed.

Lemma split_go_blank (sep s : list N) (k : nat) :
  blank s -> Forall blank (split_go sep k s).
Proof.
  intros Hs. revert k. induction Hs as [| c s Hc _ IH]; intros k;
    cbn [split_go].
  - repeat constructor.
  - destruct k as [| k]; [| apply IH].
    destruct (startswith sep (c :: s)).
    + constructor; [constructor | apply IH].
    + apply cons_head_blank; [exact Hc | apply IH].
Qed.

Lemma strip_blank (s : list N) : blank s -> strip s = [].
Proof.
  intros Hs. unfold strip, strip_by. rewrite (dropwhile_blank s Hs).
  reflexivity.
Qed.

Lemma filter_none {A} (f : A -> bool) (l : list A) :
  Forall (fun x => f x = false) l -> List.filter f l = [].
Proof.
  induction 1 as [| x l Hx _ IH]; cbn [List.filter]; [reflexivity |].
  rewrite Hx. exact IH.
Qed.

(** X8. On a text of white space only, the empty text included,
    [analyze_text] divides by nothing: [average_word_length] is the integer
    0, and [paragraph_count] and [sentence_count] are 0. *)
Theorem analyze_text_blank (text : list N) (w : World) (m : Z) :
  max_length_is w m ->
  (len text <= m)%Z ->
  blank text ->
  field_of "average_word_length" (analyze_text text w).1 = Some (VInt 0)
  /\ field_of "paragraph_count" (analyze_text text w).1 = Some (VInt 0)
  /\ field_of "sentence_count" (analyze_text text w).1 = Some (VInt 0).
Proof.
  intros Hm Hlen Hb.
  destruct (analyze_text_result text w m Hm Hlen) as [avg [rt [-> Havg]]].
  assert (Hwords : split_ws text = []).
  { unfold split_ws. apply re_findall_none.
    eapply Forall_impl; [exact Hb |]. intros c Hc. cbv beta.
    rewrite Hc. reflexivity. }
  rewrite Hwords in Havg. subst avg.
  match goal with
  | |- context [Return (VDict [(_, ?a); (_, ?b); (_, ?c); (_, ?d); (_, ?e);
                               (_, ?f); (_, ?g); (_, ?h)])] =>
      destruct (analysis_lookup a b c d e f g h)
        as (_ & _ & _ & _ & He & Hf & Hg & _)
  end.
  cbv zeta in He, Hf, Hg. rewrite He, Hf, Hg.
  split; [reflexivity | split]; do 2 f_equal.
  - rewrite filter_none; [reflexivity |].
    eapply Forall_impl; [apply split_go_blank, Hb |].
    intros p Hp. cbv beta. rewrite (strip_blank p Hp). reflexivity.
  - rewrite re_findall_none; [reflexivity |].
    eapply Forall_impl; [exact Hb |]. intros c Hc. apply not_sentence_end, Hc.
Qed.

(** X9. When [TEXT_PROCESSOR_MAX_LENGTH] is set to a value [int()]
    rejects, the empty string for one, [analyze_text] and [summarize_text]
    raise [ValueError] for every text, whatever its length. *)
Theorem bad_limit_rejects_all (text : list N) (max_sentences : Z) (w : World)
    (value : list N) :
  environ w !! MAX_LENGTH_VAR = Some value ->
  parse_int value = None ->
  raises_ValueError (analyze_text text w).1
  /\ raises_ValueError (summarize_text text max_sentences w).1.
Proof.
  intros Hset Hbad.
  assert (Hint : forall w',
             py_int (default_or (environ w !! MAX_LENGTH_VAR) (py "10000")) w'
             = (Raise (mk_exn ValueError
                         (py "invalid literal for int() with base 10")), w')).
  { intros w'. rewrite Hset. cbn [default_or]. unfold py_int.
    rewrite Hbad. reflexivity. }
  split.
  - unfold analyze_text. erewrite bind_return by reflexivity.
    erewrite bind_raise by apply Hint.
    eexists. split; reflexivity.
  - unfold summarize_text. erewrite bind_return by reflexivity.
    erewrite bind_raise by apply Hint.
    eexists. split; reflexivity.
Qed.

End Analysis.

Lemma analyze_text_counts_witness :
  field_of "line_count"
    (analyze_text (RT := ascii_runtime) (py "one
two") keyed_world).1
  = Some (VInt (1 + count_char newline (py "one
two"))).
Proof.
  apply (analyze_text_counts (RT := ascii_runtime) (py "one
two") keyed_world 12).
  - vm_compute. reflexivity.
  - vm_compute. discriminate.
Defined.

Lemma analyze_text_blank_witness :
  field_of "average_word_length"
    (analyze_text (RT := ascii_runtime) (py "  ") keyed_world).1
  = Some (VInt 0).
Proof.
  apply (analyze_text_blank (RT := ascii_runtime) (py "  ") keyed_world 12).
  - vm_compute. reflexivity.
  - vm_compute. discriminate.
  - repeat constructor.
Defined.

Lemma bad_limit_rejects_all_witness :
  raises_ValueError
    (analyze_text (RT := ascii_runtime) [] empty_limit_world).1.
Proof.
  apply (bad_limit_rejects_all (RT := ascii_runtime) [] 3 empty_limit_world []).
  - vm_compute. reflexivity.
  - vm_compute. reflexivity.
Defined.

(** ** [summarize_text] *)

Section Summary.
Context {RT : Runtime}.

(** What [summarize_text] returns when there are more sentences than
    asked for. *)
Lemma summarize_text_long (text : list N) (max_sentences : Z) (w : World)
    (m : Z) :
  max_length_is w m ->
  (len text <= m)%Z ->
  (max_sentences < len (sentences_of text))%Z ->
  (summarize_text text max_sentences w).1
  = Return
      (join (py ". ")
         (pick_in_order (top_sentences_of (sentences_of text) max_sentences)
            max_sentences [] (sentences_of text))
       ++ py ".").
Proof.
  intros Hm Hlen Hmany. apply max_length_read in Hm.
  unfold summarize_text.
  erewrite bind_return by reflexivity.
  erewrite bind_return by (apply py_int_return, Hm).
  destruct (Z.ltb_spec m (len text)) as [Hlt | _]; [lia |].
  destruct (Z.leb_spec (len (sentences_of text)) max_sentences) as [Hle | _];
    [lia |].
  reflexivity.
Qed.

Lemma imap_snd {A B} (g : nat -> A -> B) (l : list A) :
  List.map snd (imap (fun i x => (g i x, x)) l) = l.
Proof.
  revert g. induction l as [| x l IH]; intros g; cbn [imap List.map snd];
    [reflexivity |].
  f_equal. apply (IH (fun i x => g (S i) x)).
Qed.

Lemma insert_scored_Permutation (x : Q * list N) (l : list (Q * list N)) :
  Permutation (x :: l) (insert_scored x l).
Proof.
  induction l as [| y l IH]; cbn [insert_scored]; [reflexivity |].
  destruct (scored_ltb x y); [| reflexivity].
  rewrite perm_swap. apply perm_skip, IH.
Qed.

Lemma sort_scored_Permutation (l : list (Q * list N)) :
  Permutation l (sort_scored_reverse l).
Proof.
  unfold sort_scored_reverse. induction l as [| x l IH]; cbn [foldr];
    [reflexivity |].
  rewrite <- insert_scored_Permutation. apply perm_skip, IH.
Qed.

Lemma pick_in_order_take (top : list (list N)) (k : Z)
    (sentences acc : list (list N)) :
  (len acc < k)%Z ->
  pick_in_order top k acc sentences
  = take (Z.to_nat k) (acc ++ List.filter (in_top top) sentences).
Proof.
  revert acc. induction sentences as [| s sentences IH]; intros acc Hacc;
    cbn [pick_in_order List.filter].
  - rewrite app_nil_r. symmetry. apply take_ge. unfold len in Hacc. lia.
  - fold (in_top top s). destruct (in_top top s).
    + destruct (Z.leb_spec k (len (acc ++ [s]))) as [Hfull | Hmore].
      * replace (acc ++ s :: List.filter (in_top top) sentences)
          with ((acc ++ [s]) ++ List.filter (in_top top) sentences)
          by (rewrite <- app_assoc; reflexivity).
        symmetry. apply take_app_length'.
        unfold len in *. rewrite length_app in *. cbn [length] in *. lia.
      * rewrite (IH (acc ++ [s]) Hmore), <- app_assoc. reflexivity.
    + apply IH, Hacc.
Qed.

Lemma filter_all {A} (f : A -> bool) (l : list A) :
  Forall (fun x => f x = true) l -> List.filter f l = l.
Proof.
  induction 1 as [| x l Hx _ IH]; cbn [List.filter]; [reflexivity |].
  rewrite Hx, IH. reflexivity.
Qed.

Lemma in_top_of_elem (top : list (list N)) (s : list N) :
  s ∈ top -> in_top top s = true.
Proof.
  intros H. unfold in_top. apply existsb_exists. exists s.
  split; [apply list_elem_of_In, H | apply str_eqb_refl].
Qed.

(** The first [n] elements of a list are among those of its elements that
    occur in its first [n]. *)
Lemma filter_prefix_length (l : list (list N)) (n : nat) :
  (n <= length l)%nat ->
  (n <= length (List.filter (in_top (take n l)) l))%nat.
Proof.
  intros Hn. rewrite <- (take_drop n l) at 2.
  rewrite List.filter_app, length_app, filter_all.
  - rewrite length_take. lia.
  - apply Forall_forall. intros x Hx. apply in_top_of_elem, Hx.
Qed.

Lemma filter_sublist {A} (f : A -> bool) (l : list A) :
  List.filter f l `sublist_of` l.
Proof.
  induction l as [| x l IH]; cbn [List.filter]; [constructor |].
  destruct (f x); [apply sublist_skip | apply sublist_cons]; exact IH.
Qed.

(** X10. Asked for at least one sentence and fewer than the text has,
    [summarize_text] returns exactly [max_sentences] of the sentences of
    the text, in the order they have there, joined by a full stop and a
    space and closed by a full stop. *)
Theorem summarize_text_picks (text : list N) (max_sentences : Z) (w : World)
    (m : Z) :
  max_length_is w m ->
  (len text <= m)%Z ->
  (1 <= max_sentences)%Z ->
  (max_sentences < len (sentences_of text))%Z ->
  exists picked,
    (summarize_text text max_sentences w).1
    = Return (join (py ". ") picked ++ py ".")
    /\ len picked = max_sentences
    /\ picked `sublist_of` sentences_of text.
Proof.
  intros Hm Hlen Hone Hmany.
  rewrite (summarize_text_long text max_sentences w m Hm Hlen Hmany).
  set (sentences := sentences_of text) in *.
  set (top := top_sentences_of sentences max_sentences).
  eexists. split; [reflexivity |].
  rewrite pick_in_order_take by (unfold len; cbn [length]; lia).
  cbn [app]. split.
  - set (n := Z.to_nat max_sentences).
    set (sorted := List.map snd (sort_scored_reverse (scored_sentences sentences))).
    assert (Hperm : Permutation sentences sorted).
    { unfold sorted. rewrite <- sort_scored_Permutation.
      unfold scored_sentences. rewrite imap_snd. reflexivity. }
    assert (Htop : top = take n sorted).
    { unfold top, top_sentences_of, slice_to, sorted, n.
      destruct (Z.leb_spec 0 max_sentences) as [_ | Hneg]; [| lia].
      symmetry. apply firstn_map. }
    assert (Hcount : (n <= length (List.filter (in_top top) sentences))%nat).
    { rewrite (Permutation_length
                 (filter_Permutation' (in_top top) _ _ Hperm)), Htop.
      apply filter_prefix_length.
      rewrite <- (Permutation_length Hperm). unfold len in Hmany. lia. }
    unfold len. rewrite length_take. lia.
  - etransitivity; [apply sublist_take | apply filter_sublist].
Qed.

Lemma pick_in_order_none (k : Z) (sentences acc : list (list N)) :
  pick_in_order [] k acc sentences = acc.
Proof.
  induction sentences as [| s sentences IH]; cbn [pick_in_order existsb];
    [reflexivity | exact IH].
Qed.

(** X11. Asked for no sentence of a text that has some, [summarize_text]
    returns a lone full stop. *)
Theorem summarize_text_zero (text : list N) (w : World) (m : Z) :
  max_length_is w m ->
  (len text <= m)%Z ->
  (0 < len (sentences_of text))%Z ->
  (summarize_text text 0 w).1 = Return (py ".").
Proof.
  intros Hm Hlen Hsome.
  rewrite (summarize_text_long text 0 w m Hm Hlen Hsome).
  unfold top_sentences_of, slice_to. cbn [Z.leb Z.to_nat take firstn List.map].
  rewrite pick_in_order_none. reflexivity.
Qed.

End Summary.

Lemma summarize_text_picks_witness :
  exists picked,
    (summarize_text (RT := ascii_runtime) (py "A b. C! D?") 2 keyed_world).1
    = Return (join (py ". ") picked ++ py ".")
    /\ len picked = 2%Z
    /\ picked `sublist_of` sentences_of (py "A b. C! D?").
Proof.
  apply (summarize_text_picks (RT := ascii_runtime) (py "A b. C! D?") 2
           keyed_world 12).
  - vm_compute. reflexivity.
  - vm_compute. discriminate.
  - lia.
  - vm_compute. reflexivity.
Defined.

Lemma summarize_text_zero_witness :
  (summarize_text (RT := ascii_runtime) (py "A b. C! D?") 0 keyed_world).1
  = Return (py ".").
Proof.
  apply (summarize_text_zero (RT := ascii_runtime) (py "A b. C! D?")
           keyed_world 12).
  - vm_compute. reflexivity.
  - vm_compute. discriminate.
  - vm_compute. reflexivity.
Defined.

(** ** The formatters *)

Section Formatters.

Lemma cons_head_Forall (P : N -> Prop) (c : N) (l : list (list N)) :
  P c -> Forall (Forall P) l -> Forall (Forall P) (cons_head c l).
Proof.
  intros Hc Hl. destruct l as [| p l]; cbn [cons_head].
  - repeat constructor. exact Hc.
  - apply Forall_cons in Hl. destruct Hl as [Hp Hl].
    constructor; [constructor; assumption | exact Hl].
Qed.

(** The pieces of a split hold characters of the text only. *)
Lemma split_go_Forall (P : N -> Prop) (sep s : list N) (k : nat) :
  Forall P s -> Forall (Forall P) (split_go sep k s).
Proof.
  intros Hs. revert k. induction Hs as [| c s Hc _ IH]; intros k;
    cbn [split_go].
  - repeat constructor.
  - destruct k as [| k]; [| apply IH].
    destruct (startswith sep (c :: s)).
    + constructor; [constructor | apply IH].
    + apply cons_head_Forall; [exact Hc | apply IH].
Qed.

Lemma split_lines_no_newline (s : list N) :
  Forall (fun p => newline ∉ p) (split_go [newline] 0 s).
Proof.
  induction s as [| c s IH]; cbn [split_go startswith length Nat.sub].
  - repeat constructor. apply not_elem_of_nil.
  - destruct (N.eqb_spec newline c) as [E | E]; cbn [andb].
    + constructor; [apply not_elem_of_nil | exact IH].
    + pose proof (split_go_nonempty [newline] s 0) as Hne.
      destruct (split_go [newline] 0 s) as [| p l]; [congruence |].
      cbn [cons_head]. apply Forall_cons in IH. destruct IH as [Hp Hl].
      constructor; [| exact Hl].
      apply not_elem_of_cons. split; assumption.
Qed.

Lemma strip_Forall (P : N -> Prop) (s : list N) :
  Forall P s -> Forall P (strip s).
Proof.
  rewrite !Forall_forall. intros H c Hc. apply H.
  apply (elem_of_strip_by isspace), Hc.
Qed.

Lemma list_items_no_newline (text : list N) :
  Forall (fun item => newline ∉ item) (list_items text).
Proof.
  unfold list_items, split. apply Forall_forall. intros item Hitem.
  apply list_elem_of_In, in_map_iff in Hitem.
  destruct Hitem as [p [<- Hp]]. apply filter_In in Hp. destruct Hp as [Hp _].
  pose proof (split_lines_no_newline text) as Hall.
  rewrite Forall_forall in Hall. intros Hin.
  apply (Hall p); [apply list_elem_of_In, Hp |].
  apply (elem_of_strip_by isspace), Hin.
Qed.

(** X12. With any [list_type] but [numbered], [format_as_list] gives one
    line per non-blank line of the text, the bullet followed by that line
    stripped; blank lines leave nothing, and a text without a non-blank
    line gives the empty string. *)
Theorem format_as_list_bullets (text list_type : list N) :
  list_type <> py "numbered" ->
  (list_items text = [] -> format_as_list text list_type = [])
  /\ (list_items text <> [] ->
      split [newline] (format_as_list text list_type)
      = List.map (app bullet) (list_items text)).
Proof.
  intros Hbullet.
  assert (Heq : format_as_list text list_type
                = join [newline] (List.map (app bullet) (list_items text))).
  { unfold format_as_list. cbv zeta. fold (list_items text).
    apply str_eqb_neq in Hbullet. rewrite Hbullet. reflexivity. }
  rewrite Heq. split.
  - intros ->. reflexivity.
  - intros Hne. apply split_join_lines.
    + destruct (list_items text); [congruence | discriminate].
    + apply Forall_forall. intros line Hline.
      apply list_elem_of_In, in_map_iff in Hline.
      destruct Hline as [item [<- Hitem]].
      pose proof (list_items_no_newline text) as Hall.
      rewrite Forall_forall in Hall.
      specialize (Hall item (proj2 (list_elem_of_In _ _) Hitem)).
      intros Hin. apply elem_of_app in Hin. destruct Hin as [Hin | Hin];
        [| exact (Hall Hin)].
      unfold bullet in Hin. repeat (apply elem_of_cons in Hin;
        destruct Hin as [Hin | Hin]; [discriminate Hin |]).
      apply elem_of_nil in Hin. exact Hin.
Qed.

Lemma fold_left_ext {A B} (f g : A -> B -> A) (l : list B) (a : A) :
  (forall a x, f a x = g a x) -> fold_left f l a = fold_left g l a.
Proof.
  intros H. revert a. induction l as [| x l IH]; intros a; cbn [fold_left];
    [reflexivity |].
  rewrite H. apply IH.
Qed.

Lemma format_as_markdown_eq (text title : list N) :
  format_as_markdown text title
  = let '(formatted_lines, current_paragraph) :=
      fold_left markdown_step (split [newline] text)
        ([py "# " ++ title; []], []) in
    join [newline]
      match current_paragraph with
      | _ :: _ => formatted_lines ++ [join [space] current_paragraph]
      | [] => formatted_lines
      end.
Proof.
  unfold format_as_markdown. cbv zeta.
  erewrite fold_left_ext; [reflexivity |].
  intros [formatted paragraph] line. reflexivity.
Qed.

(** The loop only appends to the formatted lines. *)
Lemma markdown_step_appends (lines : list (list N))
    (formatted paragraph : list (list N)) :
  exists more,
    (fold_left markdown_step lines (formatted, paragraph)).1
    = formatted ++ more.
Proof.
  revert formatted paragraph.
  induction lines as [| line lines IH]; intros formatted paragraph;
    cbn [fold_left].
  - exists []. rewrite app_nil_r. reflexivity.
  - unfold markdown_step at 2. cbv zeta.
    destruct (strip line) as [| c stripped].
    + destruct paragraph as [| p paragraph]; [apply IH |].
      destruct (IH (formatted ++ [join [space] (p :: paragraph)] ++ [[]]) [])
        as [more Hmore].
      eexists. rewrite Hmore, <- app_assoc. reflexivity.
    + apply IH.
Qed.

Lemma markdown_blank_lines (lines : list (list N))
    (formatted : list (list N)) :
  Forall blank lines ->
  fold_left markdown_step lines (formatted, []) = (formatted, []).
Proof.
  induction 1 as [| line lines Hline _ IH]; cbn [fold_left]; [reflexivity |].
  unfold markdown_step at 2. cbv zeta. rewrite (strip_blank line Hline).
  exact IH.
Qed.

(** X13. What [format_as_markdown] returns starts with the heading line
    made of the title and a line feed; for a text of white space only it
    is that heading line and nothing else. *)
Theorem format_as_markdown_heading (text title : list N) :
  (exists rest,
      format_as_markdown text title = py "# " ++ title ++ [newline] ++ rest)
  /\ (blank text ->
      format_as_markdown text title = py "# " ++ title ++ [newline]).
Proof.
  rewrite format_as_markdown_eq. split.
  - destruct (markdown_step_appends (split [newline] text)
                [py "# " ++ title; []] []) as [more Hmore].
    destruct (fold_left markdown_step (split [newline] text)
                ([py "# " ++ title; []], [])) as [formatted paragraph].
    cbn [fst] in Hmore. subst formatted.
    destruct paragraph as [| p paragraph]; cbn [app join].
    + eexists. rewrite <- app_assoc. reflexivity.
    + eexists. rewrite <- app_assoc. reflexivity.
  - intros Hb. rewrite markdown_blank_lines.
    + cbn [join]. rewrite <- app_assoc. reflexivity.
    + apply split_go_blank, Hb.
Qed.

Lemma replace_char_gone (a : N) (new s : list N) :
  a ∉ new -> a ∉ replace [a] new s.
Proof.
  intros Hnew. unfold replace.
  induction s as [| c s IH]; cbn [replace_go startswith length Nat.sub].
  - apply not_elem_of_nil.
  - destruct (N.eqb_spec a c) as [E | E]; cbn [andb].
    + intros Hin. apply elem_of_app in Hin. destruct Hin; auto.
    + apply not_elem_of_cons. split; assumption.
Qed.

Lemma elem_of_replace (old new : list N) (c : N) (s : list N) :
  old <> [] -> c ∈ replace old new s -> c ∈ s \/ c ∈ new.
Proof.
  intros Hold. unfold replace. destruct old as [| a old]; [congruence |].
  apply elem_of_replace_go.
Qed.

Lemma escape_html_safe (text : list N) :
  (less_than ∉ escape_html text) /\ (greater_than ∉ escape_html text).
Proof.
  unfold escape_html. split.
  - intros Hin. apply elem_of_replace in Hin; [| discriminate].
    destruct Hin as [Hin | Hin].
    + revert Hin. apply (replace_char_gone less_than (py "&lt;")).
      vm_compute. intros H. repeat (apply elem_of_cons in H;
        destruct H as [H | H]; [discriminate H |]).
      apply elem_of_nil in H. exact H.
    + vm_compute in Hin. repeat (apply elem_of_cons in Hin;
        destruct Hin as [Hin | Hin]; [discriminate Hin |]).
      apply elem_of_nil in Hin. exact Hin.
  - apply (replace_char_gone greater_than (py "&gt;")).
    vm_compute. intros H. repeat (apply elem_of_cons in H;
      destruct H as [H | H]; [discriminate H |]).
    apply elem_of_nil in H. exact H.
Qed.

Lemma re_sub_plus_gone (cls : N -> bool) (repl : list N) (b : bool) (a : N)
    (s : list N) :
  cls a = true -> a ∉ repl -> a ∉ re_sub_plus cls repl b s.
Proof.
  intros Ha Hrepl. revert b.
  induction s as [| c s IH]; intros b; cbn [re_sub_plus].
  - apply not_elem_of_nil.
  - destruct (cls c) eqn:Hc.
    + destruct b; [apply IH |].
      intros Hin. apply elem_of_app in Hin. destruct Hin as [Hin | Hin];
        [exact (Hrepl Hin) | exact (IH true Hin)].
    + apply not_elem_of_cons. split; [congruence | apply IH].
Qed.

Lemma re_sub_plus_Forall (P : N -> Prop) (cls : N -> bool) (repl : list N)
    (b : bool) (s : list N) :
  Forall P repl -> Forall P s -> Forall P (re_sub_plus cls repl b s).
Proof.
  rewrite !Forall_forall. intros Hrepl Hs c Hc.
  apply elem_of_re_sub_plus in Hc. destruct Hc; auto.
Qed.

Lemma format_as_html_eq (text title : list N) :
  format_as_html text title
  = join [newline]
      (html_head title
       ++ [join [newline]
             (List.map (fun body => py "    <p>" ++ body ++ py "</p>")
                (paragraph_bodies text));
           py "</body>"; py "</html>"]).
Proof.
  unfold format_as_html, paragraph_bodies, escape_html. cbv zeta.
  rewrite !List.map_map. reflexivity.
Qed.

(** X14. [format_as_html] wraps each paragraph in paragraph tags on a line
    of its own, and what it puts between the tags holds no less-than sign,
    no greater-than sign and no line feed: the text cannot open or close a
    tag. *)
Theorem format_as_html_escapes (text title : list N) :
  format_as_html text title
  = join [newline]
      (html_head title
       ++ [join [newline]
             (List.map (fun body => py "    <p>" ++ body ++ py "</p>")
                (paragraph_bodies text));
           py "</body>"; py "</html>"])
  /\ Forall (fun body =>
               (less_than ∉ body) /\ (greater_than ∉ body)
               /\ (newline ∉ body))
       (paragraph_bodies text).
Proof.
  split; [apply format_as_html_eq |].
  destruct (escape_html_safe text) as [Hlt Hgt].
  assert (Hsafe : Forall (fun c => c <> less_than /\ c <> greater_than)
                    (escape_html text)).
  { apply Forall_forall. intros c Hc. split; intros ->; auto. }
  unfold paragraph_bodies. apply Forall_forall. intros body Hbody.
  apply list_elem_of_In, in_map_iff in Hbody.
  destruct Hbody as [stripped [<- Hs]]. apply in_map_iff in Hs.
  destruct Hs as [p [<- Hp]]. apply filter_In in Hp. destruct Hp as [Hp _].
  pose proof (split_go_Forall _ [newline; newline] _ 0 Hsafe) as Hpieces.
  rewrite Forall_forall in Hpieces.
  specialize (Hpieces p (proj2 (list_elem_of_In _ _) Hp)).
  assert (Hb : Forall (fun c => c <> less_than /\ c <> greater_than)
                 (re_sub_plus (N.eqb newline) [space] false (strip p))).
  { apply re_sub_plus_Forall; [| apply strip_Forall, Hpieces].
    repeat constructor; discriminate. }
  rewrite Forall_forall in Hb.
  repeat split.
  - intros Hin. exact (proj1 (Hb _ Hin) eq_refl).
  - intros Hin. exact (proj2 (Hb _ Hin) eq_refl).
  - apply re_sub_plus_gone; [reflexivity |].
    intros Hin. apply list_elem_of_singleton in Hin. discriminate Hin.
Qed.

End Formatters.

Lemma format_as_list_bullets_witness :
  split [newline] (format_as_list (py " a
b ") (py "bullet"))
  = List.map (app bullet) (list_items (py " a
b ")).
Proof.
  apply (format_as_list_bullets (py " a
b ") (py "bullet")).
  - vm_compute. discriminate.
  - vm_compute. discriminate.
Defined.

Lemma format_as_markdown_heading_witness :
  format_as_markdown (py "  ") (py "T") = py "# " ++ py "T" ++ [newline].
Proof.
  apply (proj2 (format_as_markdown_heading (py "  ") (py "T"))).
  repeat constructor.
Defined.

(** ** More on the CLI *)

Lemma bind_inv {A B} (m : Py A) (k : A -> Py B) (w w' : World) (b : B) :
  bind m k w = (Return b, w') ->
  exists a w1, m w = (Return a, w1) /\ k a w1 = (Return b, w').
Proof.
  unfold bind. destruct (m w) as [[a | e] w1]; [| discriminate].
  intros H. exists a, w1. split; [reflexivity | exact H].
Qed.

(** Follow a run that returned back through its steps. *)
Ltac returned H :=
  repeat
    (cbv beta zeta in H;
     lazymatch type of H with
     | bind _ _ _ = (Return _, _) =>
         apply bind_inv in H; destruct H as (? & ? & _ & H)
     | (if ?b then _ else _) _ = (Return _, _) => destruct b
     | ret _ _ = (Return _, _) => unfold ret in H
     end).

Section CLIOutcomes.
Context {M : Modules}.

Lemma func_returns (c : command) (args : Namespace) (w w' : World)
    (r : option Z) :
  func c args w = (Return r, w') ->
  match c with
  | Validate | Check => r = Some 0%Z \/ r = Some 1%Z
  | _ => r = None
  end.
Proof.
  intros H. destruct c; cbn [func] in H;
    unfold cmd_generate, cmd_validate, cmd_summary, cmd_list, cmd_check in H;
    returned H; injection H as <- _; auto.
Qed.


(** X16. [generate], [summary] and [list] return nothing, so whenever one
    of them completes the exit code is 0. *)
Theorem quiet_commands_exit_zero (c : command) (o : option (list N))
    (w w' : World) (r : option Z) :
  c <> Validate -> c <> Check ->
  func c {| ns_command := Some c; ns_output := o |} w = (Return r, w') ->
  r = None
  /\ (main {| ns_command := Some c; ns_output := o |} w).1 = Return 0%Z.
Proof.
  intros Hv Hc Hrun.
  assert (Hr : r = None)
    by (apply func_returns in Hrun; destruct c; congruence).
  split; [exact Hr |].
  rewrite (main_return c o w w' r Hrun), Hr. reflexivity.
Qed.

End CLIOutcomes.

Section CountRequired.

Lemma is_required_run (v : pyvalue) (w : World) :
  is_required v w
  = if is_dict v then (Return (required_flag v), w) else (Raise no_get, w).
Proof. destruct v; reflexivity. Qed.

Lemma filter_keys_required (items : list (list N * pyvalue)) (w : World) :
  filter_keys is_required items w
  = if forallb (fun e => is_dict e.2) items
    then (Return (List.map fst
                    (List.filter (fun e => required_flag e.2) items)), w)
    else (Raise no_get, w).
Proof.
  induction items as [| [k v] items IH]; cbn [filter_keys forallb snd];
    [reflexivity |].
  unfold bind at 1. rewrite is_required_run.
  destruct (is_dict v); cbn [andb]; [| reflexivity].
  unfold bind. rewrite IH.
  destruct (forallb (fun e => is_dict e.2) items); [| reflexivity].
  cbn [List.filter snd]. destruct (required_flag v); reflexivity.
Qed.

(** X17. The count of required variables that [generate] and [check]
    print: when every spec is a dictionary it is the number of specs whose
    [required] entry is true, a spec without that entry counting as not
    required; when some spec is no dictionary the count raises
    [AttributeError]. Either way the world is left as it was. *)
Theorem count_required_spec (env_vars : list (list N * pyvalue)) (w : World) :
  count_required env_vars w
  = if forallb (fun e => is_dict e.2) env_vars
    then (Return (len (List.filter (fun e => required_flag e.2) env_vars)), w)
    else (Raise no_get, w).
Proof.
  unfold count_required, bind. rewrite filter_keys_required.
  destruct (forallb (fun e => is_dict e.2) env_vars); [| reflexivity].
  unfold ret, len. rewrite length_map. reflexivity.
Qed.

Lemma startswith_app (p s : list N) : startswith p (p ++ s) = true.
Proof.
  induction p as [| a p IH]; cbn [startswith app]; [reflexivity |].
  rewrite N.eqb_refl, IH. reflexivity.
Qed.

Lemma after_first_dot_prefix (prefix rest : list N) (w : World) :
  full_stop ∉ prefix ->
  after_first_dot (prefix ++ full_stop :: rest) w = (Return rest, w).
Proof.
  induction prefix as [| c prefix IH]; intros Hdot;
    cbn [app after_first_dot].
  - reflexivity.
  - apply not_elem_of_cons in Hdot. destruct Hdot as [Hc Hdot].
    destruct (N.eqb_spec c 46) as [E | _]; [exfalso; apply Hc; symmetry; exact E |].
    apply IH, Hdot.
Qed.

Lemma after_first_dot_found (t : list N) (w : World) :
  full_stop ∈ t -> exists short, after_first_dot t w = (Return short, w).
Proof.
  induction t as [| c t IH]; intros Hin.
  - apply elem_of_nil in Hin. contradiction.
  - cbn [after_first_dot]. destruct (N.eqb_spec c 46) as [E | E].
    + eexists. reflexivity.
    + apply elem_of_cons in Hin. destruct Hin as [Hin | Hin];
        [unfold full_stop in Hin; congruence | apply IH, Hin].
Qed.

Lemma startswith_elem (p s : list N) (c : N) :
  startswith p s = true -> c ∈ p -> c ∈ s.
Proof.
  revert s. induction p as [| a p IH]; intros [| b s] H Hin;
    cbn [startswith] in H; try discriminate.
  - apply elem_of_nil in Hin. contradiction.
  - apply elem_of_nil in Hin. contradiction.
  - apply andb_true_iff in H. destruct H as [Hab H].
    apply N.eqb_eq in Hab. subst b.
    apply elem_of_cons in Hin. destruct Hin as [-> | Hin].
    + apply list_elem_of_here.
    + apply list_elem_of_further, (IH s H Hin).
Qed.

(** X18. The tool names [list] prints: for a qualified name that starts
    with the plugin name and a full stop, dropping the part up to the first
    full stop never raises [IndexError]; and when the plugin name holds no
    full stop, what is left is the name of the tool. *)
Theorem listed_tool_name (plugin_name tool_name t : list N) (w : World) :
  (startswith (plugin_name ++ py ".") t = true ->
   exists short, after_first_dot t w = (Return short, w))
  /\ (full_stop ∉ plugin_name ->
      startswith (plugin_name ++ py ".") (plugin_name ++ py "." ++ tool_name)
      = true
      /\ after_first_dot (plugin_name ++ py "." ++ tool_name) w
         = (Return tool_name, w)).
Proof.
  split.
  - intros Hpre. apply after_first_dot_found.
    apply (startswith_elem _ _ _ Hpre).
    apply elem_of_app. right. apply list_elem_of_here.
  - intros Hdot. split.
    + rewrite app_assoc. apply startswith_app.
    + apply (after_first_dot_prefix plugin_name tool_name w Hdot).
Qed.

End CountRequired.

Lemma quiet_commands_exit_zero_witness :
  (main (M := spec_modules) list_args bundled_world).1 = Return 0%Z.
Proof.
  eapply (quiet_commands_exit_zero (M := spec_modules) ListPlugins None
            bundled_world _ _).
  - discriminate.
  - discriminate.
  - vm_compute. reflexivity.
Defined.

Lemma listed_tool_name_witness :
  after_first_dot (py "text_processor" ++ py "." ++ py "clean_text")
    bundled_world
  = (Return (py "clean_text"), bundled_world).
Proof.
  apply (proj2 (listed_tool_name (py "text_processor") (py "clean_text") []
                  bundled_world)).
  vm_compute. intros H. repeat (apply elem_of_cons in H;
    destruct H as [H | H]; [discriminate H |]).
  apply elem_of_nil in H. exact H.
Defined.

Section ValidateReport.
Context {M : Modules}.

Lemma printed_with (line : list fragment) (w : World)
    (lines : list (list fragment)) :
  printed line (with_stdout w lines) = with_stdout w (lines ++ [line]).
Proof. unfold printed, with_stdout. cbn. rewrite app_assoc. reflexivity. Qed.

Lemma fold_printed_with {A} (line : A -> list fragment) (l : list A)
    (w : World) (lines : list (list fragment)) :
  fold_left (fun w x => printed (line x) w) l (with_stdout w lines)
  = with_stdout w (lines ++ List.map line l).
Proof.
  revert lines. induction l as [| x l IH]; intros lines;
    cbn [fold_left List.map].
  - rewrite app_nil_r. reflexivity.
  - rewrite printed_with, IH, <- app_assoc. reflexivity.
Qed.

(** X19. Once [validate] has the two lists it prints, after whatever was
    printed before: the one line that the configuration is valid when both
    are empty; otherwise, for each list that is not empty, a heading, one
    bullet line per entry in order and an empty line, the missing variables
    before the conflicts. It changes nothing else of the world. *)
Theorem validate_prints (args : Namespace) (w w1 w2 w3 w4 : World)
    (loaded : Plugins) (env_manager : PluginEnvManager)
    (missing conflicts : list (list N)) :
  load_plugins true w = (Return loaded, w1) ->
  create_env_manager loaded w1 = (Return env_manager, w2) ->
  validate_env_vars env_manager w2 = (Return missing, w3) ->
  check_conflicts env_manager w3 = (Return conflicts, w4) ->
  (cmd_validate args w).2
  = with_stdout w4 (validate_report missing conflicts).
Proof.
  intros H1 H2 H3 H4.
  change w4 with w4 at 1.
  destruct missing as [| var missing], conflicts as [| conflict conflicts];
    unfold cmd_validate, print_str; do 4 py_step;
    cbn [nonempty negb andb]; repeat py_step;
    change (printed ?l w4) with (with_stdout w4 [l]);
    rewrite ?fold_printed_with, ?printed_with, ?fold_printed_with,
      ?printed_with;
    cbn [validate_report report_block ret snd app];
    rewrite <- ?app_assoc; reflexivity.
Qed.

End ValidateReport.

Lemma validate_prints_witness :
  stdout (cmd_validate (M := spec_modules) validate_args keyed_world).2
  = [[Lit (py "❌ Missing required environment variables:")];
     bullet_line (py "API_KEY"); []].
Proof.
  rewrite (validate_prints (M := spec_modules) validate_args keyed_world
             keyed_world keyed_world
             (mkWorld (environ keyed_world) [EnvRead (py "API_KEY")] [] ∅
                (plugin_root keyed_world))
             (mkWorld (environ keyed_world) [EnvRead (py "API_KEY")] [] ∅
                (plugin_root keyed_world))
             (load (plugin_root keyed_world))
             (registry (load (plugin_root keyed_world)))
             [py "API_KEY"] []); vm_compute; reflexivity.
Defined.
